(** * TaskFlow backend: task mutation / queue propagation pipeline

    A shallow embedding of
      - src/modules/tasks/tasks.service.ts            (TasksService)
      - src/modules/tasks/dto/batch-process.dto.ts    (BatchProcessDto)
      - src/queues/scheduled-tasks/overdue-tasks.service.ts
      - src/queues/task-processor/task-processor.service.ts

    The services are asynchronous TypeScript methods that talk to a
    relational table (through TypeORM), to a BullMQ queue, to a logger
    and to Prometheus counters.  They are embedded as computations of a
    state-and-exception monad over a [World] that holds the table rows,
    the trace of SQL statements, the queue, the log and the counters. *)

From Stdlib Require Import String Ascii DecimalString ZArith Lia Bool Arith List Permutation.
Import ListNotations.
Open Scope string_scope.
Open Scope list_scope.

Set Implicit Arguments.

(** Template literals are concatenations. *)
Infix "+++" := String.append (right associativity, at level 60).

(* ================================================================= *)
(** ** Data model *)

(** Modelled from the spec: enums/task-status.enum.ts is not part of the
    sources at hand.  A TypeScript string enum; the service reads the
    members PENDING, IN_PROGRESS and COMPLETED.  At run time a status is a
    string ([updateStatus] stores any string "as any"). *)
Definition TaskStatus := string.
Definition PENDING : TaskStatus := "pending".
Definition IN_PROGRESS : TaskStatus := "in_progress".
Definition COMPLETED : TaskStatus := "completed".

(** Modelled from the spec: enums/task-priority.enum.ts (low, medium, high). *)
Definition TaskPriority := string.
Definition LOW : TaskPriority := "low".
Definition MEDIUM : TaskPriority := "medium".
Definition HIGH : TaskPriority := "high".

(** Timestamps are milliseconds since the epoch, as [Date.getTime]. *)
Definition Timestamp := Z.

(** Modelled from the spec: entities/task.entity.ts.  One row of the
    [tasks] table: id (UUID), status, priority, optional due date, audit
    timestamps, owning user and the descriptive fields. *)
Record Task : Type := mkTask {
  id : string;
  title : string;
  description : option string;
  status : TaskStatus;
  priority : TaskPriority;
  dueDate : option Timestamp;
  userId : string;
  createdAt : Timestamp;
  updatedAt : Timestamp
}.

(** Modelled from the spec: dto/create-task.dto.ts.  [dueDate] is the
    instant denoted by the ISO string, i.e. [new Date(dto.dueDate)]. *)
Record CreateTaskDto : Type := mkCreateTaskDto {
  c_title : string;
  c_description : option string;
  c_status : option TaskStatus;
  c_priority : option TaskPriority;
  c_dueDate : option Timestamp;
  c_userId : string
}.

(** Modelled from the spec: dto/update-task.dto.ts.  A patch: every field
    is optional, an absent field is [None]. *)
Record UpdateTaskDto : Type := mkUpdateTaskDto {
  u_title : option string;
  u_description : option string;
  u_status : option TaskStatus;
  u_priority : option TaskPriority;
  u_dueDate : option Timestamp
}.

(** The projection [select: ['id', 'status']]. *)
Record IdStatus : Type := mkIdStatus {
  s_id : string;
  s_status : TaskStatus
}.

(** dto/batch-process.dto.ts *)
Definition BatchAction := string.
Definition COMPLETE : BatchAction := "complete".
Definition DELETE : BatchAction := "delete".

Record BatchProcessDto : Type := mkBatchProcessDto {
  b_tasks : list string;
  b_action : BatchAction
}.

Inductive BatchOutcome : Type := updated_ | deleted_ | noop_.

Inductive BatchItemResult : Type :=
| ItemSuccess (taskId : string) (result : BatchOutcome)
| ItemFailure (taskId : string) (error : string).

Definition item_taskId (r : BatchItemResult) : string :=
  match r with
  | ItemSuccess i _ => i
  | ItemFailure i _ => i
  end.

Record BatchProcessResult : Type := mkBatchProcessResult {
  r_action : BatchAction;
  r_requested : nat;
  r_affected : nat;
  r_notFound : nat;
  r_results : list BatchItemResult
}.

(* ----------------------------------------------------------------- *)
(** *** JavaScript [Set] of strings

    A [Set] iterates in insertion order and ignores a value it already
    holds; it is kept as the list of its members in that order. *)

Definition Set_has (s : list string) (x : string) : bool :=
  existsb (String.eqb x) s.

Definition Set_add (s : list string) (x : string) : list string :=
  if Set_has s x then s else s ++ [x].

(** [new Set(values)]; [Array.from] of the result is the list itself. *)
Definition Set_from (values : list string) : list string :=
  fold_left Set_add values [].

(** The [@Transform] of [BatchProcessDto.tasks]:
    [Array.from(new Set(value))]. *)
Definition dedupe_tasks (value : list string) : list string :=
  Set_from value.

(* ----------------------------------------------------------------- *)
(** *** Queue (BullMQ, queue "task-processing") *)

Record JobData : Type := mkJobData {
  taskId : option string;
  j_status : option string;
  notifyUsers : option bool
}.

Record Backoff : Type := mkBackoff {
  backoff_type : string;
  backoff_delay : nat
}.

Record JobsOptions : Type := mkJobsOptions {
  attempts : option nat;
  backoff : option Backoff;
  removeOnComplete : option bool;
  removeOnFail : option nat;
  jobId : option string
}.

Definition no_options : JobsOptions :=
  mkJobsOptions None None None None None.

(** What a producer hands to [Queue.add], or one element of [addBulk]. *)
Record JobRequest : Type := mkJobRequest {
  q_name : string;
  q_data : JobData;
  q_opts : JobsOptions
}.

Record Job : Type := mkJob {
  job_id : string;
  name : string;
  data : JobData;
  opts : JobsOptions;
  attemptsMade : nat
}.

(** One call on the queue, with whether it threw. *)
Inductive QueueCall : Type :=
| CallAdd (req : JobRequest) (threw : bool)
| CallAddBulk (reqs : list JobRequest) (threw : bool).

(** Modelled from the spec: the BullMQ queue is an external collaborator.
    [jobs] are the pending jobs; a job added without a [jobId] gets the
    next number as its id; a job added under a [jobId] that is already
    pending is not added again.  [faults] scripts the transport: each
    call consumes the head, [true] meaning that this call throws; an
    exhausted script means a reachable queue.  [calls] is the trace. *)
Record Queue : Type := mkQueue {
  jobs : list Job;
  counter : nat;
  faults : list bool;
  calls : list QueueCall
}.

Definition string_of_nat (n : nat) : string :=
  NilEmpty.string_of_uint (Nat.to_uint n).

Definition find_job (k : string) (js : list Job) : option Job :=
  find (fun j => String.eqb (job_id j) k) js.

(** Store one request among the pending jobs. *)
Definition enqueue (r : JobRequest) (st : list Job * nat) : Job * (list Job * nat) :=
  let '(js, n) := st in
  match jobId (q_opts r) with
  | Some k =>
      match find_job k js with
      | Some j => (j, (js, n))
      | None =>
          let j := mkJob k (q_name r) (q_data r) (q_opts r) 0 in
          (j, (js ++ [j], n))
      end
  | None =>
      let j := mkJob (string_of_nat (S n)) (q_name r) (q_data r) (q_opts r) 0 in
      (j, (js ++ [j], S n))
  end.

Fixpoint enqueue_all (rs : list JobRequest) (st : list Job * nat) : list Job * nat :=
  match rs with
  | [] => st
  | r :: rs' => enqueue_all rs' (snd (enqueue r st))
  end.

(* ----------------------------------------------------------------- *)
(** *** Log, metrics, SQL trace *)

Inductive LogLevel : Type := LDebug | LLog | LWarn | LError.

Record LogEntry : Type := mkLogEntry {
  level : LogLevel;
  context : string;
  message : string
}.

Inductive MetricInc : Type :=
| overdue_tasks_total (by_ : nat)
| jobs_processed_total (jobType : string) (status_ : string).

(** The statements sent to the database, in the order they are issued. *)
Inductive Stmt : Type :=
| Begin
| Commit
| Rollback
| InsertTask (row : Task)
| SelectOne (i : string)
| SelectIdStatus (i : string)
| SelectIn (ids : list string)
| UpdateReturning (i : string) (patch : UpdateTaskDto)
| UpdateCompleted (ids : list string)
| DeleteIn (ids : list string)
| SelectOverdue (cutoff : Timestamp) (take skip : nat)
| SaveTask (row : Task).

Definition is_page_query (s : Stmt) : bool :=
  match s with
  | SelectOverdue _ _ _ => true
  | _ => false
  end.

Definition is_write (s : Stmt) : bool :=
  match s with
  | InsertTask _ | UpdateReturning _ _ | UpdateCompleted _
  | DeleteIn _ | SaveTask _ => true
  | _ => false
  end.

(* ================================================================= *)
(** ** The world and the monad *)

Record World : Type := mkWorld {
  tasks : list Task;              (* rows of the table, in scan order *)
  statements : list Stmt;
  queue : Queue;
  logs : list LogEntry;
  metrics : list MetricInc;
  now : Timestamp;                (* the clock: new Date(), NOW() *)
  uuid : nat -> string;           (* ids the database hands out *)
  serial : nat;
  OVERDUE_TASK_TTL_HOURS : option Z
}.

Definition set_tasks (ts : list Task) (w : World) : World :=
  mkWorld ts (statements w) (queue w) (logs w) (metrics w) (now w)
          (uuid w) (serial w) (OVERDUE_TASK_TTL_HOURS w).

Definition set_statements (ss : list Stmt) (w : World) : World :=
  mkWorld (tasks w) ss (queue w) (logs w) (metrics w) (now w)
          (uuid w) (serial w) (OVERDUE_TASK_TTL_HOURS w).

Definition set_queue (q : Queue) (w : World) : World :=
  mkWorld (tasks w) (statements w) q (logs w) (metrics w) (now w)
          (uuid w) (serial w) (OVERDUE_TASK_TTL_HOURS w).

Definition set_logs (ls : list LogEntry) (w : World) : World :=
  mkWorld (tasks w) (statements w) (queue w) ls (metrics w) (now w)
          (uuid w) (serial w) (OVERDUE_TASK_TTL_HOURS w).

Definition set_metrics (ms : list MetricInc) (w : World) : World :=
  mkWorld (tasks w) (statements w) (queue w) (logs w) ms (now w)
          (uuid w) (serial w) (OVERDUE_TASK_TTL_HOURS w).

(** The clock is moved from outside, between two calls. *)
Definition set_now (t : Timestamp) (w : World) : World :=
  mkWorld (tasks w) (statements w) (queue w) (logs w) (metrics w) t
          (uuid w) (serial w) (OVERDUE_TASK_TTL_HOURS w).

Definition set_serial (n : nat) (w : World) : World :=
  mkWorld (tasks w) (statements w) (queue w) (logs w) (metrics w) (now w)
          (uuid w) n (OVERDUE_TASK_TTL_HOURS w).

Inductive Exn : Type :=
| NotFoundException (msg : string)
| BadRequestException (msg : string)
| Error (msg : string)
| TypeError (msg : string)
| QueueUnavailable
| QueryFailedError (msg : string).

(** [Timeout] is not a behaviour of the program: it is what a loop of the
    embedding answers when its fuel runs out.  No handler catches it. *)
Inductive Result (A : Type) : Type :=
| Ok (a : A)
| Throw (e : Exn)
| Timeout.

Arguments Ok {A} a.
Arguments Throw {A} e.
Arguments Timeout {A}.

Definition M (A : Type) : Type := World -> Result A * World.

Definition ret {A} (a : A) : M A := fun w => (Ok a, w).

Definition bind {A B} (m : M A) (k : A -> M B) : M B :=
  fun w =>
    match m w with
    | (Ok a, w') => k a w'
    | (Throw e, w') => (Throw e, w')
    | (Timeout, w') => (Timeout, w')
    end.

Definition throw {A} (e : Exn) : M A := fun w => (Throw e, w).

Definition timeout {A} : M A := fun w => (Timeout, w).

(** [try { body } catch (e) { handler }] *)
Definition try_catch {A} (body : M A) (handler : Exn -> M A) : M A :=
  fun w =>
    match body w with
    | (Ok a, w') => (Ok a, w')
    | (Throw e, w') => handler e w'
    | (Timeout, w') => (Timeout, w')
    end.

Declare Scope monad_scope.
Delimit Scope monad_scope with monad.

Notation "x <- c1 ;; c2" := (bind c1 (fun x => c2))
  (at level 100, c1 at next level, right associativity) : monad_scope.
Notation "' pat <- c1 ;; c2" := (bind c1 (fun x => match x with pat => c2 end))
  (at level 100, pat pattern, c1 at next level, right associativity) : monad_scope.
Notation "c1 ;; c2" := (bind c1 (fun _ => c2))
  (at level 100, right associativity) : monad_scope.

Open Scope monad_scope.

Definition get_world : M World := fun w => (Ok w, w).

Definition modify (f : World -> World) : M unit := fun w => (Ok tt, f w).

(** [for (const x of xs) { body x }] *)
Fixpoint for_each {A} (xs : list A) (body : A -> M unit) : M unit :=
  match xs with
  | [] => ret tt
  | x :: xs' => body x ;; for_each xs' body
  end.

(** Reading a property of a value that may be [undefined]. *)
Definition deref {A} (what : string) (x : option A) : M A :=
  match x with
  | Some a => ret a
  | None => throw (TypeError ("Cannot read properties of undefined (reading '" +++ what +++ "')"))
  end.

(* ----------------------------------------------------------------- *)
(** *** Logger, counters, clock, configuration *)

Definition logger (lvl : LogLevel) (ctx msg : string) : M unit :=
  modify (fun w => set_logs (logs w ++ [mkLogEntry lvl ctx msg]) w).

Definition counter_inc (m : MetricInc) : M unit :=
  modify (fun w => set_metrics (metrics w ++ [m]) w).

(** [new Date()]: one reading of the clock.  The clock does not move by
    itself while a computation runs; see [set_now]. *)
Definition new_Date : M Timestamp := fun w => (Ok (now w), w).

(** [configService.get<number>(key, defaultValue)] *)
Definition config_get_OVERDUE_TASK_TTL_HOURS (default : Z) : M Z :=
  fun w => (Ok (match OVERDUE_TASK_TTL_HOURS w with Some h => h | None => default end), w).

(* ----------------------------------------------------------------- *)
(** *** Queue operations *)

Definition log_call (c : QueueCall) (q : Queue) : Queue :=
  mkQueue (jobs q) (counter q) (faults q) (calls q ++ [c]).

(** Consume one entry of the fault script. *)
Definition next_fault (q : Queue) : bool * Queue :=
  match faults q with
  | [] => (false, q)
  | f :: fs => (f, mkQueue (jobs q) (counter q) fs (calls q))
  end.

(** [taskQueue.add(name, data, opts)] *)
Definition queue_add (nm : string) (d : JobData) (o : JobsOptions) : M Job :=
  fun w =>
    let r := mkJobRequest nm d o in
    let '(f, q) := next_fault (queue w) in
    if f then (Throw QueueUnavailable, set_queue (log_call (CallAdd r true) q) w)
    else
      let '(j, (js, n)) := enqueue r (jobs q, counter q) in
      (Ok j, set_queue (log_call (CallAdd r false) (mkQueue js n (faults q) (calls q))) w).

(** [taskQueue.addBulk(requests)] *)
Definition queue_addBulk (rs : list JobRequest) : M unit :=
  fun w =>
    let '(f, q) := next_fault (queue w) in
    if f then (Throw QueueUnavailable, set_queue (log_call (CallAddBulk rs true) q) w)
    else
      let '(js, n) := enqueue_all rs (jobs q, counter q) in
      (Ok tt, set_queue (log_call (CallAddBulk rs false) (mkQueue js n (faults q) (calls q))) w).

(* ----------------------------------------------------------------- *)
(** *** Repository operations (TypeORM over the [tasks] table) *)

Definition issue (s : Stmt) : M unit :=
  modify (fun w => set_statements (statements w ++ [s]) w).

(** [dataSource.transaction(cb)]: the rows are restored when [cb] throws;
    what [cb] did to the queue, the log and the counters stays. *)
Definition transaction {A} (cb : M A) : M A :=
  fun w =>
    match (issue Begin ;; cb) w with
    | (Ok a, w') => (Ok a, snd (issue Commit w'))
    | (Throw e, w') => (Throw e, snd (issue Rollback (set_tasks (tasks w) w')))
    | (Timeout, w') => (Timeout, w')
    end.

Definition has_id (i : string) (t : Task) : bool := String.eqb (id t) i.

Definition project (t : Task) : IdStatus := mkIdStatus (id t) (status t).

(** [repo.findOne({ where: { id } })] *)
Definition repo_findOne (i : string) : M (option Task) :=
  issue (SelectOne i) ;;
  w <- get_world ;;
  ret (find (has_id i) (tasks w)).

(** [repo.findOne({ where: { id }, select: ['id', 'status'] })] *)
Definition repo_findOne_id_status (i : string) : M (option IdStatus) :=
  issue (SelectIdStatus i) ;;
  w <- get_world ;;
  ret (option_map project (find (has_id i) (tasks w))).

(** [repo.find({ where: { id: In(ids) }, select: ['id', 'status'] })] *)
Definition repo_find_in (ids : list string) : M (list IdStatus) :=
  issue (SelectIn ids) ;;
  w <- get_world ;;
  ret (map project (filter (fun t => Set_has ids (id t)) (tasks w))).

(** Modelled from the spec: the column defaults of the entity.  A new row
    gets the next id of the database, status pending and priority medium
    unless the DTO says otherwise, and both audit timestamps set to now. *)
Definition new_row (dto : CreateTaskDto) (i : string) (t : Timestamp) : Task :=
  mkTask i (c_title dto) (c_description dto)
         (match c_status dto with Some s => s | None => PENDING end)
         (match c_priority dto with Some p => p | None => MEDIUM end)
         (c_dueDate dto) (c_userId dto) t t.

(** [repo.save(repo.create({ ...dto, dueDate }))] *)
Definition repo_save_new (dto : CreateTaskDto) : M Task :=
  fun w =>
    let row := new_row dto (uuid w (serial w)) (now w) in
    (issue (InsertTask row) ;;
     modify (fun w' => set_serial (S (serial w')) (set_tasks (tasks w' ++ [row]) w')) ;;
     ret row) w.

Definition patch {A} (new : option A) (old : A) : A :=
  match new with
  | Some v => v
  | None => old
  end.

(** [.set({ ...dto, updatedAt: () => 'NOW()' })] on one row. *)
Definition apply_patch (dto : UpdateTaskDto) (t : Timestamp) (row : Task) : Task :=
  mkTask (id row)
         (patch (u_title dto) (title row))
         (match u_description dto with Some d => Some d | None => description row end)
         (patch (u_status dto) (status row))
         (patch (u_priority dto) (priority row))
         (match u_dueDate dto with Some d => Some d | None => dueDate row end)
         (userId row) (createdAt row) t.

(** [UPDATE tasks SET ... WHERE id = :id RETURNING *]; answers [result.raw].
    The rows are rewritten where they stand; where an updated row comes
    in a later scan without [ORDER BY] is left to the database, and what
    is proved below of a store after an update does not depend on it. *)
Definition repo_update_returning (i : string) (dto : UpdateTaskDto) : M (list Task) :=
  issue (UpdateReturning i dto) ;;
  fun w =>
    let rows := map (fun t => if has_id i t then apply_patch dto (now w) t else t) (tasks w) in
    (Ok (filter (has_id i) rows), set_tasks rows w).

Definition complete_row (t : Timestamp) (row : Task) : Task :=
  mkTask (id row) (title row) (description row) COMPLETED (priority row)
         (dueDate row) (userId row) (createdAt row) t.

(** The rows hit by [WHERE id IN (:...ids) AND status <> :completed]. *)
Definition to_complete (ids : list string) (row : Task) : bool :=
  Set_has ids (id row) && negb (String.eqb (status row) COMPLETED).

(** [id IN (:...ids)] with no id expands to [id IN ()], which PostgreSQL
    rejects: the statement fails with a [QueryFailedError]. *)
Definition empty_in_list : Exn := QueryFailedError "syntax error at or near )".

(** [UPDATE tasks SET status = completed, updatedAt = NOW() WHERE ...
    RETURNING id, status]; answers [(res.affected, res.raw)].  As for the
    single update, the rows are rewritten where they stand, and what is
    proved below does not depend on where an updated row comes in a later
    scan. *)
Definition repo_update_completed (ids : list string) : M (nat * list IdStatus) :=
  issue (UpdateCompleted ids) ;;
  match ids with
  | [] => throw empty_in_list
  | _ :: _ =>
      fun w =>
        let raw := map (fun t => project (complete_row (now w) t))
                       (filter (to_complete ids) (tasks w)) in
        let rows := map (fun t => if to_complete ids t then complete_row (now w) t else t)
                        (tasks w) in
        (Ok (length raw, raw), set_tasks rows w)
  end.

(** [DELETE FROM tasks WHERE id IN (:...ids)]; answers [res.affected]. *)
Definition repo_delete_in (ids : list string) : M nat :=
  issue (DeleteIn ids) ;;
  match ids with
  | [] => throw empty_in_list
  | _ :: _ =>
      fun w =>
        (Ok (length (filter (fun t => Set_has ids (id t)) (tasks w))),
         set_tasks (filter (fun t => negb (Set_has ids (id t))) (tasks w)) w)
  end.

(** [where: { dueDate: LessThan(cutoff), status: TaskStatus.PENDING }];
    a row without a due date compares as false. *)
Definition overdue (cutoff : Timestamp) (row : Task) : bool :=
  match dueDate row with
  | Some d => (d <? cutoff)%Z
  | None => false
  end && String.eqb (status row) PENDING.

(** [repo.find({ where: ..., take, skip })]: no [order] is given, the rows
    come in the scan order of the table. *)
Definition repo_find_overdue (cutoff : Timestamp) (take skip : nat) : M (list Task) :=
  issue (SelectOverdue cutoff take skip) ;;
  w <- get_world ;;
  ret (firstn take (skipn skip (filter (overdue cutoff) (tasks w)))).

Definition touch (t : Timestamp) (row : Task) : Task :=
  mkTask (id row) (title row) (description row) (status row) (priority row)
         (dueDate row) (userId row) (createdAt row) t.

Definition option_eqb {A} (eqb : A -> A -> bool) (x y : option A) : bool :=
  match x, y with
  | Some a, Some b => eqb a b
  | None, None => true
  | _, _ => false
  end.

(** Whether two rows agree on every column. *)
Definition Task_eqb (a b : Task) : bool :=
  String.eqb (id a) (id b) && String.eqb (title a) (title b)
  && option_eqb String.eqb (description a) (description b)
  && String.eqb (status a) (status b) && String.eqb (priority a) (priority b)
  && option_eqb Z.eqb (dueDate a) (dueDate b)
  && String.eqb (userId a) (userId b)
  && Z.eqb (createdAt a) (createdAt b) && Z.eqb (updatedAt a) (updatedAt b).

(** [repo.save(entity)] for an entity that was loaded from the table: the
    stored row is read again and compared with the entity; when no column
    differs no [UPDATE] is issued and the row stays as it is, otherwise the
    row is written with the columns of the entity.  An entity without a
    stored row is inserted.
    Modelled from the spec: [updatedAt] is refreshed on every mutation. *)
Definition repo_save (entity : Task) : M Task :=
  issue (SelectOne (id entity)) ;;
  w <- get_world ;;
  match find (has_id (id entity)) (tasks w) with
  | Some stored =>
      if Task_eqb stored entity then ret entity
      else
        issue (SaveTask entity) ;;
        fun w' =>
          let saved := touch (now w') entity in
          (Ok saved,
           set_tasks (map (fun t => if has_id (id entity) t then saved else t) (tasks w'))
                     w')
  | None =>
      issue (SaveTask entity) ;;
      fun w' =>
        let saved := touch (now w') entity in
        (Ok saved, set_tasks (tasks w' ++ [saved]) w')
  end.

(* ================================================================= *)
(** ** TasksService (tasks.service.ts) *)

Definition TasksService_name : string := "TasksService".

Definition status_update_data (i : string) (s : TaskStatus) : JobData :=
  mkJobData (Some i) (Some s) None.

Definition create (dto : CreateTaskDto) : M Task :=
  transaction (
    saved <- repo_save_new dto ;;
    try_catch
      (queue_add "task-status-update"
         (status_update_data (id saved) (status saved))
         (mkJobsOptions (Some 3) (Some (mkBackoff "exponential" 2000))
            (Some true) (Some 50)
            (Some ("task-status-update:" +++ id saved +++ ":" +++ status saved))) ;;
       ret tt)
      (fun e =>
         logger LWarn TasksService_name
           ("Queue unavailable; will retry later for task " +++ id saved)) ;;
    ret saved).

Definition findOneOrFail (i : string) : M Task :=
  task <- repo_findOne i ;;
  match task with
  | None => throw (NotFoundException "Task not found")
  | Some t => ret t
  end.

(** [dto.status !== undefined && dto.status !== before.status] *)
Definition status_changed (dto : UpdateTaskDto) (before : IdStatus) : bool :=
  match u_status dto with
  | None => false
  | Some s => negb (String.eqb s (s_status before))
  end.

(** [result.raw[0]] is [undefined] on an empty result, hence the option. *)
Definition update (i : string) (dto : UpdateTaskDto) : M (option Task) :=
  '(updated, statusChanged) <- transaction (
      before <- repo_findOne_id_status i ;;
      match before with
      | None => throw (NotFoundException "Task not found")
      | Some before =>
          raw <- repo_update_returning i dto ;;
          let updated := nth_error raw 0 in
          let statusChanged := status_changed dto before in
          ret (updated, statusChanged)
      end) ;;
  (if statusChanged : bool then
     try_catch
       (u <- deref "id" updated ;;
        queue_add "task-status-update" (status_update_data (id u) (status u)) no_options ;;
        ret tt)
       (fun e =>
          u <- deref "id" updated ;;
          logger LWarn TasksService_name
            ("Failed to enqueue status update for task " +++ id u))
   else ret tt) ;;
  ret updated.

Definition findOverdueTasks (limit offset : nat) : M (list Task) :=
  now_ <- new_Date ;;
  repo_find_overdue now_ limit offset.

Definition notifyUser (user task : string) : M unit :=
  logger LLog TasksService_name
    ("Notifying user " +++ user +++ " about overdue task " +++ task).

Definition set_status (s : string) (row : Task) : Task :=
  mkTask (id row) (title row) (description row) s (priority row)
         (dueDate row) (userId row) (createdAt row) (updatedAt row).

Definition updateStatus (i : string) (s : string) : M Task :=
  task <- findOneOrFail i ;;
  repo_save (set_status s task).

Definition status_update_request (i : string) : JobRequest :=
  mkJobRequest "task-status-update" (status_update_data i COMPLETED) no_options.

Definition batchProcess (dto : BatchProcessDto) : M BatchProcessResult :=
  let ids := b_tasks dto in
  let action := b_action dto in
  if Nat.eqb (length ids) 0 then throw (BadRequestException "No task IDs provided")
  else
    transaction (
      existing <- repo_find_in ids ;;
      let existingIds := Set_from (map s_id existing) in
      let notFoundIds := filter (fun i => negb (Set_has existingIds i)) ids in
      '(affected, perItem) <-
        (if String.eqb action COMPLETE then
           '(affected, raw) <- repo_update_completed existingIds ;;
           let updatedIds := map s_id raw in
           let updatedSet := Set_from updatedIds in
           let perItem :=
             map (fun i =>
                    if negb (Set_has existingIds i) then ItemFailure i "not_found"
                    else if Set_has updatedSet i then ItemSuccess i updated_
                    else ItemSuccess i noop_) ids in
           (if negb (Nat.eqb (length updatedIds) 0) then
              try_catch (queue_addBulk (map status_update_request updatedIds))
                        (fun _ => ret tt)
            else ret tt) ;;
           ret (affected, perItem)
         else if String.eqb action DELETE then
           affected <- repo_delete_in existingIds ;;
           let perItem :=
             map (fun i =>
                    if negb (Set_has existingIds i) then ItemFailure i "not_found"
                    else ItemSuccess i deleted_) ids in
           ret (affected, perItem)
         else throw (BadRequestException ("Unknown action: " +++ action))) ;;
      ret (mkBatchProcessResult action (length ids) affected (length notFoundIds) perItem)).

(* ================================================================= *)
(** ** OverdueTasksService (overdue-tasks.service.ts) *)

Definition OverdueTasksService_name : string := "OverdueTasksService".

Definition overdue_request (task : Task) : JobRequest :=
  mkJobRequest "process-overdue-task"
    (mkJobData (Some (id task)) None None)
    (mkJobsOptions None None None None (Some ("overdue-" +++ id task))).

(** The [while (hasMore)] loop; one unit of fuel per page. *)
Fixpoint scan_pages (fuel : nat) (dueBefore : Timestamp)
         (batchSize page totalProcessed : nat) : M nat :=
  match fuel with
  | O => timeout
  | S fuel' =>
      overdueTasks <- repo_find_overdue dueBefore batchSize (page * batchSize) ;;
      let hasMore := Nat.eqb (length overdueTasks) batchSize in
      let page := S page in
      if Nat.eqb (length overdueTasks) 0 && Nat.eqb page 1 then
        logger LLog OverdueTasksService_name "No overdue tasks found." ;;
        ret totalProcessed
      else
        logger LLog OverdueTasksService_name
          ("Processing " +++ string_of_nat (length overdueTasks)
             +++ " overdue tasks in batch " +++ string_of_nat page) ;;
        for_each overdueTasks (fun task =>
          let r := overdue_request task in
          queue_add (q_name r) (q_data r) (q_opts r) ;; ret tt) ;;
        let totalProcessed := totalProcessed + length overdueTasks in
        counter_inc (overdue_tasks_total (length overdueTasks)) ;;
        if hasMore then scan_pages fuel' dueBefore batchSize page totalProcessed
        else ret totalProcessed
  end.

Definition batchSize_scan : nat := 500.

Definition checkOverdueTasks (fuel : nat) : M unit :=
  logger LDebug OverdueTasksService_name "Starting overdue tasks check..." ;;
  now_ <- new_Date ;;
  overdueHours <- config_get_OVERDUE_TASK_TTL_HOURS 0 ;;
  let dueBefore := (now_ - overdueHours * 60 * 60 * 1000)%Z in
  try_catch
    (totalProcessed <- scan_pages fuel dueBefore batchSize_scan 0 0 ;;
     logger LLog OverdueTasksService_name
       ("Overdue tasks check completed. Total queued: " +++ string_of_nat totalProcessed))
    (fun error =>
       logger LError OverdueTasksService_name "Error checking overdue tasks").

(* ================================================================= *)
(** ** TaskProcessorService (task-processor.service.ts) *)

Definition TaskProcessorService_name : string := "TaskProcessorService".

Inductive JobReturn : Type :=
| ReturnFailure (error : string)
| ReturnStatusUpdated (task : string) (newStatus : string)
| ReturnCount (count : nat).

Definition exn_message (e : Exn) : string :=
  match e with
  | NotFoundException m => m
  | BadRequestException m => m
  | Error m => m
  | TypeError m => m
  | QueueUnavailable => "Connection is closed."
  | QueryFailedError m => m
  end.

(** [!x] on a string that may be absent: absent and empty are falsy. *)
Definition falsy (x : option string) : bool :=
  match x with
  | None => true
  | Some s => String.eqb s ""
  end.

Definition handleStatusUpdate (d : JobData) : M JobReturn :=
  if falsy (taskId d) || falsy (j_status d) then
    logger LWarn TaskProcessorService_name "Missing required taskId or status in job data" ;;
    ret (ReturnFailure "Missing required data")
  else
    i <- deref "taskId" (taskId d) ;;
    s <- deref "status" (j_status d) ;;
    task <- updateStatus i s ;;
    counter_inc (jobs_processed_total "task-status-update" "success") ;;
    ret (ReturnStatusUpdated (id task) (status task)).

(** The [while (true)] loop of [handleOverdueTasks]. *)
Fixpoint overdue_pages (fuel : nat) (notify : bool)
         (batchSize offset totalProcessed : nat) : M nat :=
  match fuel with
  | O => timeout
  | S fuel' =>
      overdueTasks <- findOverdueTasks batchSize offset ;;
      if Nat.eqb (length overdueTasks) 0 then ret totalProcessed
      else
        for_each overdueTasks (fun task =>
          if notify then notifyUser (userId task) (id task) else ret tt) ;;
        overdue_pages fuel' notify batchSize (offset + batchSize)
                      (totalProcessed + length overdueTasks)
  end.

Definition handleOverdueTasks (fuel : nat) (d : JobData) : M JobReturn :=
  totalProcessed <-
    overdue_pages fuel (match notifyUsers d with Some b => b | None => false end) 100 0 0 ;;
  counter_inc (jobs_processed_total "overdue-tasks-notification" "success") ;;
  logger LLog TaskProcessorService_name
    ("Processed " +++ string_of_nat totalProcessed +++ " overdue tasks") ;;
  ret (ReturnCount totalProcessed).

Definition process (fuel : nat) (job : Job) : M JobReturn :=
  try_catch
    (logger LDebug TaskProcessorService_name
       ("Processing job " +++ job_id job +++ " [type=" +++ name job +++ "] attempt="
          +++ string_of_nat (attemptsMade job + 1)) ;;
     if String.eqb (name job) "task-status-update" then handleStatusUpdate (data job)
     else if String.eqb (name job) "overdue-tasks-notification" then
       handleOverdueTasks fuel (data job)
     else throw (Error ("Unknown job type: " +++ name job)))
    (fun error =>
       logger LError TaskProcessorService_name
         ("Job " +++ job_id job +++ " [type=" +++ name job +++ "] failed on attempt "
            +++ string_of_nat (attemptsMade job + 1) +++ ": " +++ exn_message error) ;;
       counter_inc (jobs_processed_total (name job) "error") ;;
       throw error).

(* ================================================================= *)
(** ** Notions used in the statements *)

(** The request that [create] hands to the queue for a saved row. *)
Definition create_request (saved : Task) : JobRequest :=
  mkJobRequest "task-status-update"
    (status_update_data (id saved) (status saved))
    (mkJobsOptions (Some 3) (Some (mkBackoff "exponential" 2000)) (Some true) (Some 50)
       (Some ("task-status-update:" +++ id saved +++ ":" +++ status saved))).

(** The request that [update] hands to the queue for the returned row. *)
Definition update_request (u : Task) : JobRequest :=
  mkJobRequest "task-status-update" (status_update_data (id u) (status u)) no_options.

Definition saved_row (dto : CreateTaskDto) (w : World) : Task :=
  new_row dto (uuid w (serial w)) (now w).

Definition patch_rows (i : string) (dto : UpdateTaskDto) (t : Timestamp)
           (rows : list Task) : list Task :=
  map (fun r => if has_id i r then apply_patch dto t r else r) rows.

(** The pure content of [batchProcess]: the ids found, the rows a
    [complete] changes, the per-item report and the answer. *)
Definition existing_ids (ids : list string) (rows : list Task) : list string :=
  Set_from (map s_id (map project (filter (fun t => Set_has ids (id t)) rows))).

Definition completed_raw (t : Timestamp) (found : list string) (rows : list Task)
  : list IdStatus :=
  map (fun r => project (complete_row t r)) (filter (to_complete found) rows).

Definition complete_items (found updatedIds ids : list string) : list BatchItemResult :=
  map (fun i =>
         if negb (Set_has found i) then ItemFailure i "not_found"
         else if Set_has (Set_from updatedIds) i then ItemSuccess i updated_
         else ItemSuccess i noop_) ids.

Definition delete_items (found ids : list string) : list BatchItemResult :=
  map (fun i =>
         if negb (Set_has found i) then ItemFailure i "not_found"
         else ItemSuccess i deleted_) ids.

Definition batch_answer (dto : BatchProcessDto) (rows : list Task) (t : Timestamp)
  : Result BatchProcessResult :=
  let ids := b_tasks dto in
  let action := b_action dto in
  match ids with
  | [] => Throw (BadRequestException "No task IDs provided")
  | _ :: _ =>
      let found := existing_ids ids rows in
      let missing := length (filter (fun i => negb (Set_has found i)) ids) in
      if String.eqb action COMPLETE then
        match found with
        | [] => Throw empty_in_list
        | _ :: _ =>
            let raw := completed_raw t found rows in
            Ok (mkBatchProcessResult action (length ids) (length raw) missing
                  (complete_items found (map s_id raw) ids))
        end
      else if String.eqb action DELETE then
        match found with
        | [] => Throw empty_in_list
        | _ :: _ =>
            Ok (mkBatchProcessResult action (length ids)
                  (length (filter (fun r => Set_has found (id r)) rows)) missing
                  (delete_items found ids))
        end
      else Throw (BadRequestException ("Unknown action: " +++ action))
  end.

Definition batch_rows (dto : BatchProcessDto) (rows : list Task) (t : Timestamp)
  : list Task :=
  let ids := b_tasks dto in
  match ids with
  | [] => rows
  | _ :: _ =>
      let found := existing_ids ids rows in
      if String.eqb (b_action dto) COMPLETE then
        map (fun r => if to_complete found r then complete_row t r else r) rows
      else if String.eqb (b_action dto) DELETE then
        filter (fun r => negb (Set_has found (id r))) rows
      else rows
  end.

Definition batch_statements (dto : BatchProcessDto) (rows : list Task) : list Stmt :=
  let ids := b_tasks dto in
  match ids with
  | [] => []
  | _ :: _ =>
      let found := existing_ids ids rows in
      let close := match found with [] => Rollback | _ :: _ => Commit end in
      if String.eqb (b_action dto) COMPLETE then
        [Begin; SelectIn ids; UpdateCompleted found; close]
      else if String.eqb (b_action dto) DELETE then
        [Begin; SelectIn ids; DeleteIn found; close]
      else [Begin; SelectIn ids; Rollback]
  end.

(** One of the requested ids is the id of a stored row. *)
Definition some_exists (ids : list string) (rows : list Task) : Prop :=
  exists i, In i ids /\ In i (map id rows).

(** Whether the next call on the queue throws. *)
Definition queue_down (q : Queue) : bool := fst (next_fault q).

Definition taskA : Task :=
  mkTask "A" "write report" None PENDING MEDIUM (Some 50%Z) "u1" 10%Z 10%Z.

Definition taskB : Task :=
  mkTask "B" "file taxes" (Some "done in March") COMPLETED HIGH (Some 60%Z) "u1" 11%Z 12%Z.

Definition empty_queue : Queue := mkQueue [] 0 [] [].

Definition broken_queue : Queue := mkQueue [] 0 [true] [].

Definition world_of (rows : list Task) (q : Queue) : World :=
  mkWorld rows [] q [] [] 100%Z (fun n => "task-" +++ string_of_nat n) 0 None.

Definition world_AB : World := world_of [taskA; taskB] empty_queue.

(** The patch asks for a status other than the one the row has. *)
Definition asks_new_status (dto : UpdateTaskDto) (before : Task) : Prop :=
  exists s, u_status dto = Some s /\ s <> status before.

Definition set_status_dto (s : TaskStatus) : UpdateTaskDto :=
  mkUpdateTaskDto None None (Some s) None None.

(** What identifies a pending job for the purposes of deduplication. *)
Definition job_summary (j : Job) : string * JobData * option string :=
  (name j, data j, jobId (opts j)).

(** The four outcomes an entry of the report can carry. *)
Definition known_outcome (r : BatchItemResult) : Prop :=
  r = ItemSuccess (item_taskId r) updated_ \/
  r = ItemSuccess (item_taskId r) noop_ \/
  r = ItemSuccess (item_taskId r) deleted_ \/
  r = ItemFailure (item_taskId r) "not_found".

(** A status is terminal when no further work is expected: completed. *)
Definition non_terminal (s : TaskStatus) : bool := negb (String.eqb s COMPLETED).

Definition pending_and_due (t : Timestamp) (row : Task) : Prop :=
  status row = PENDING /\ exists d, dueDate row = Some d /\ (d < t)%Z.

(** The page that the [k]-th call of a scan with pages of [limit] rows
    receives when the call is made at time [t], on a store that does not
    change: every call reads the clock for itself. *)
Definition page_at (limit k : nat) (t : Timestamp) (w : World) : list Task :=
  match fst (findOverdueTasks limit (k * limit) (set_now t w)) with
  | Ok rows => rows
  | _ => []
  end.

(** No row of the store falls due between the first call of a scan and
    its [n] first calls, made at the times [clock 0], [clock 1], ... *)
Definition none_falls_due (clock : nat -> Timestamp) (n : nat) (rows : list Task) : Prop :=
  forall k row, k < n -> In row rows -> overdue (clock k) row = overdue (clock 0) row.

Definition taskP : Task :=
  mkTask "P" "prepare slides" None IN_PROGRESS LOW (Some 20%Z) "u2" 5%Z 6%Z.

Definition taskL : Task :=
  mkTask "L" "renew licence" None PENDING LOW (Some 150%Z) "u2" 7%Z 7%Z.

Definition taskD : Task :=
  mkTask "D" "send invoice" None PENDING HIGH (Some 60%Z) "u1" 8%Z 8%Z.

Definition page_queries (w : World) : nat :=
  length (filter is_page_query (statements w)).

Definition add_overdue (task : Task) : M unit :=
  let r := overdue_request task in
  queue_add (q_name r) (q_data r) (q_opts r) ;; ret tt.

Definition was_added (task : Task) : QueueCall := CallAdd (overdue_request task) false.

(** What a run of the loop does from page [page] on, when the queue takes
    every job: it reads the remaining pending due rows page by page. *)
Record ScanOutcome (w w' : World) (rest : list Task) (pages : nat) : Prop := {
  scan_tasks : tasks w' = tasks w;
  scan_faults : faults (queue w') = [];
  scan_calls : calls (queue w') = calls (queue w) ++ map was_added rest;
  scan_pages_issued : page_queries w' = page_queries w + pages
}.

(** The cutoff of a scan: now minus the configured number of hours. *)
Definition scan_cutoff (w : World) : Timestamp :=
  (now w - match OVERDUE_TASK_TTL_HOURS w with Some h => h | None => 0 end
           * 60 * 60 * 1000)%Z.

Definition ceil_div (n b : nat) : nat := (n + b - 1) / b.

(** [n] pending tasks that were due at time 1. *)
Definition many_due (n : nat) : list Task :=
  map (fun k => mkTask ("t" +++ string_of_nat k) "chore" None PENDING LOW
                       (Some 1%Z) "u1" 0%Z 0%Z)
      (seq 0 n).

(* ================================================================= *)
(** ** TasksService: listing, deletion and statistics *)

(** [FindOptionsWhere<Task>] as the listing methods build it: equality on
    [status] and on [priority], each present or not. *)
Record FindOptionsWhere : Type := mkWhere {
  where_status : option TaskStatus;
  where_priority : option TaskPriority
}.

Definition matches (wh : FindOptionsWhere) (row : Task) : bool :=
  match where_status wh with
  | Some s => String.eqb (status row) s
  | None => true
  end &&
  match where_priority wh with
  | Some p => String.eqb (priority row) p
  | None => true
  end.

(** [order: { createdAt: 'DESC' }].  The database leaves open in which
    order it returns rows created at the same instant; here they keep the
    scan order of the table, and what is stated of the order of a listing
    either holds for any such choice or assumes distinct instants. *)
Fixpoint insert_desc (row : Task) (sorted : list Task) : list Task :=
  match sorted with
  | [] => [row]
  | r :: rest =>
      if (createdAt r <=? createdAt row)%Z then row :: r :: rest
      else r :: insert_desc row rest
  end.

Definition order_createdAt_desc (rows : list Task) : list Task :=
  fold_right insert_desc [] rows.

(** [repo.findAndCount({ where, order: { createdAt: 'DESC' }, skip, take })]
    answers the page and the number of all matching rows.  A read: it
    leaves the world as it is (the trace [statements] follows the mutation
    pipeline only). *)
Definition repo_findAndCount (wh : FindOptionsWhere) (skip take : nat)
  : M (list Task * nat) :=
  w <- get_world ;;
  let found := filter (matches wh) (tasks w) in
  ret (firstn take (skipn skip (order_createdAt_desc found)), length found).

(** dto/get-tasks-query.dto.ts: [page] and [limit] are integers that the
    validators bound below by 1, hence [positive]. *)
Record GetTasksQueryDto : Type := mkGetTasksQueryDto {
  g_status : option TaskStatus;
  g_priority : option TaskPriority;
  g_page : option positive;
  g_limit : option positive
}.

Record PageMeta : Type := mkPageMeta {
  m_total : nat;
  m_page : nat;
  m_limit : nat;
  m_pageCount : nat;
  m_hasNextPage : bool;
  m_hasPrevPage : bool
}.

Record PaginatedTasks : Type := mkPaginatedTasks {
  p_data : list Task;
  p_meta : PageMeta
}.

(** [if (x) where.x = x]: an absent or empty string sets no filter. *)
Definition if_truthy (x : option string) : option string :=
  match x with
  | Some s => if String.eqb s "" then None else Some s
  | None => None
  end.

Definition with_default (x : option positive) (d : positive) : nat :=
  Pos.to_nat (match x with Some v => v | None => d end).

(** The [meta] block shared by [findAll] and [findByStatus];
    [Math.ceil(total / limit)] for a positive [limit]. *)
Definition page_meta (total page limit : nat) : PageMeta :=
  let pageCount := ceil_div total limit in
  mkPageMeta total page limit pageCount (Nat.ltb page pageCount) (Nat.ltb 1 page).

Definition findAll (query : GetTasksQueryDto) : M PaginatedTasks :=
  let page := with_default (g_page query) 1 in
  let limit := with_default (g_limit query) 10 in
  let wh := mkWhere (if_truthy (g_status query)) (if_truthy (g_priority query)) in
  '(items, total) <- repo_findAndCount wh ((page - 1) * limit) limit ;;
  ret (mkPaginatedTasks items (page_meta total page limit)).

Definition findByStatus (s : TaskStatus) (page limit : option positive)
  : M PaginatedTasks :=
  let page := with_default page 1 in
  let limit := with_default limit 20 in
  '(data_, total) <- repo_findAndCount (mkWhere (Some s) None) ((page - 1) * limit) limit ;;
  ret (mkPaginatedTasks data_ (page_meta total page limit)).

(** [tasksRepository.delete({ id })] is the delete of the one id; [remove]
    runs it outside any transaction. *)
Definition remove (i : string) : M unit :=
  affected <- repo_delete_in [i] ;;
  if Nat.eqb affected 0 then throw (NotFoundException "Task not found")
  else ret tt.

Record TaskStatsDto : Type := mkTaskStatsDto {
  st_total : nat;
  st_completed : nat;
  st_inProgress : nat;
  st_pending : nat;
  st_highPriority : nat
}.

(** A count of rows, or [SUM(CASE WHEN ... THEN 1 ELSE 0 END)]; over no row the
    sum is NULL and [Number(null)] is 0. *)
Definition count_rows (p : Task -> bool) (rows : list Task) : nat :=
  length (filter p rows).

Definition has_status (s : TaskStatus) (row : Task) : bool := String.eqb (status row) s.

Definition has_priority (p : TaskPriority) (row : Task) : bool :=
  String.eqb (priority row) p.

(** One aggregate query; a read, like [repo_findAndCount]. *)
Definition getStats : M TaskStatsDto :=
  w <- get_world ;;
  let rows := tasks w in
  ret (mkTaskStatsDto (count_rows (fun _ => true) rows)
                      (count_rows (has_status COMPLETED) rows)
                      (count_rows (has_status IN_PROGRESS) rows)
                      (count_rows (has_status PENDING) rows)
                      (count_rows (has_priority HIGH) rows)).

(* ================================================================= *)
(** ** Notions used in the further statements *)

(** The rows left when those with id [i] are deleted. *)
Definition without (i : string) (rows : list Task) : list Task :=
  filter (fun r => negb (has_id i r)) rows.

(** The rows after [repo.save] of a loaded entity at time [t]. *)
Definition save_rows (entity : Task) (t : Timestamp) (rows : list Task) : list Task :=
  map (fun r => if has_id (id entity) r then touch t entity else r) rows.

(** A job as the queue holds it after [taskQueue.add(name, data)]. *)
Definition status_update_job (key i s : string) : Job :=
  mkJob key "task-status-update" (status_update_data i s) no_options 0.

(** Classes of entries of a batch report. *)
Definition is_failure (r : BatchItemResult) : bool :=
  match r with
  | ItemFailure _ _ => true
  | ItemSuccess _ _ => false
  end.

Definition is_changed (r : BatchItemResult) : bool :=
  match r with
  | ItemSuccess _ updated_ | ItemSuccess _ deleted_ => true
  | _ => false
  end.

Definition is_noop (r : BatchItemResult) : bool :=
  match r with
  | ItemSuccess _ noop_ => true
  | _ => false
  end.

Definition count {A} (p : A -> bool) (l : list A) : nat := length (filter p l).

(** The statuses that [getStats] counts. *)
Definition counted_status (s : TaskStatus) : Prop :=
  s = COMPLETED \/ s = IN_PROGRESS \/ s = PENDING.

(** The statistics that [getStats] answers in a world. *)
Definition stats_of (w : World) : TaskStatsDto :=
  match fst (getStats w) with
  | Ok st => st
  | _ => mkTaskStatsDto 0 0 0 0 0
  end.

(** Rows from the most recently created to the oldest. *)
Fixpoint newest_first (rows : list Task) : Prop :=
  match rows with
  | [] => True
  | r :: rest =>
      Forall (fun older => (createdAt older <= createdAt r)%Z) rest /\ newest_first rest
  end.

(** The data of page [k + 1] of a listing. *)
Definition page_data (query : GetTasksQueryDto) (k : nat) (w : World) : list Task :=
  match fst (findAll (mkGetTasksQueryDto (g_status query) (g_priority query)
                                          (Some (Pos.of_succ_nat k)) (g_limit query)) w) with
  | Ok res => p_data res
  | _ => []
  end.

(** The filter that [findAll] builds from a query. *)
Definition where_of (query : GetTasksQueryDto) : FindOptionsWhere :=
  mkWhere (if_truthy (g_status query)) (if_truthy (g_priority query)).

(** What a scan leaves alone: the rows, the clock and the configuration. *)
Definition same_store (w w' : World) : Prop :=
  tasks w' = tasks w /\ now w' = now w /\
  OVERDUE_TASK_TTL_HOURS w' = OVERDUE_TASK_TTL_HOURS w.


(* ================================================================= *)
(** ** Properties *)

(* ----------------------------------------------------------------- *)
(** *** Sets *)

Lemma Set_has_true (s : list string) (x : string) :
  Set_has s x = true <-> In x s.
Proof.
  unfold Set_has. rewrite existsb_exists. split.
  - intros [y [Hy Heq]]. apply String.eqb_eq in Heq. now subst.
  - intros H. exists x. split; [exact H | apply String.eqb_refl].
Qed.

Lemma Set_has_false (s : list string) (x : string) :
  Set_has s x = false <-> ~ In x s.
Proof.
  rewrite <- Set_has_true. destruct (Set_has s x); split; congruence.
Qed.

Lemma Set_add_In (s : list string) (x y : string) :
  In y (Set_add s x) <-> In y s \/ y = x.
Proof.
  unfold Set_add. destruct (Set_has s x) eqn:E.
  - apply Set_has_true in E. split; [tauto | intros [H | ->]; assumption].
  - rewrite in_app_iff. simpl. split; intros [H | H]; auto.
    + destruct H as [H | []]; auto.
Qed.

Lemma Set_add_NoDup (s : list string) (x : string) :
  NoDup s -> NoDup (Set_add s x).
Proof.
  intros H. unfold Set_add. destruct (Set_has s x) eqn:E; [exact H |].
  apply Set_has_false in E.
  apply NoDup_app; [exact H | repeat constructor; simpl; tauto |].
  intros y Hy [<- | []]. tauto.
Qed.

Lemma fold_Set_add_In (l acc : list string) (y : string) :
  In y (fold_left Set_add l acc) <-> In y acc \/ In y l.
Proof.
  revert acc. induction l as [| x l IH]; intros acc; simpl.
  - tauto.
  - rewrite IH, Set_add_In. intuition congruence.
Qed.

Lemma fold_Set_add_NoDup (l acc : list string) :
  NoDup acc -> NoDup (fold_left Set_add l acc).
Proof.
  revert acc. induction l as [| x l IH]; intros acc H; simpl.
  - exact H.
  - apply IH, Set_add_NoDup, H.
Qed.

Lemma Set_from_In (l : list string) (y : string) :
  In y (Set_from l) <-> In y l.
Proof.
  unfold Set_from. rewrite fold_Set_add_In. simpl. tauto.
Qed.

Lemma Set_from_NoDup (l : list string) : NoDup (Set_from l).
Proof. apply fold_Set_add_NoDup. constructor. Qed.

Lemma Set_from_has (l : list string) (y : string) :
  Set_has (Set_from l) y = Set_has l y.
Proof.
  destruct (Set_has l y) eqn:E.
  - apply Set_has_true, Set_from_In, Set_has_true, E.
  - apply Set_has_false. rewrite Set_from_In. apply Set_has_false, E.
Qed.

Lemma Set_from_nonempty (l : list string) : l <> [] -> Set_from l <> [].
Proof.
  destruct l as [| x l]; [congruence |]. intros _ E.
  assert (H : In x (Set_from (x :: l))) by (apply Set_from_In; now left).
  rewrite E in H. exact H.
Qed.

(* ----------------------------------------------------------------- *)
(** *** What each operation answers and what it leaves behind *)

Ltac run :=
  cbv [create update batchProcess transaction bind try_catch ret throw issue
       modify get_world logger counter_inc queue_add queue_addBulk
       repo_save_new repo_findOne repo_findOne_id_status repo_find_in
       repo_update_returning repo_update_completed repo_delete_in deref
       new_Date findOneOrFail fst snd
       tasks statements queue logs metrics now uuid serial
       OVERDUE_TASK_TTL_HOURS set_tasks set_statements set_queue set_logs
       set_metrics set_serial set_now empty_in_list].

Ltac open_world w :=
  destruct w as [ts ss q0 ls ms nw uu sr cfg]; run.

Ltac fields := cbv beta iota zeta delta [fst snd].

Ltac queue_cases q :=
  unfold next_fault; destruct (faults q) as [| [|] fs]; fields;
  try reflexivity;
  try (destruct (enqueue _ _) as [j [js n]]; reflexivity).

Lemma create_fst (dto : CreateTaskDto) (w : World) :
  fst (create dto w) = Ok (saved_row dto w).
Proof. unfold saved_row. open_world w. queue_cases q0. Qed.

Lemma create_tasks (dto : CreateTaskDto) (w : World) :
  tasks (snd (create dto w)) = tasks w ++ [saved_row dto w].
Proof. unfold saved_row. open_world w. queue_cases q0. Qed.

Lemma create_logs (dto : CreateTaskDto) (w : World) :
  logs (snd (create dto w)) =
  if fst (next_fault (queue w)) then
    logs w ++ [mkLogEntry LWarn "TasksService"
                 ("Queue unavailable; will retry later for task " +++ id (saved_row dto w))]
  else logs w.
Proof. unfold saved_row. open_world w. queue_cases q0. Qed.

Lemma create_calls (dto : CreateTaskDto) (w : World) :
  calls (queue (snd (create dto w))) =
  calls (queue w) ++
  [CallAdd (create_request (saved_row dto w)) (fst (next_fault (queue w)))].
Proof. unfold saved_row. open_world w. queue_cases q0. Qed.

Lemma create_jobs (dto : CreateTaskDto) (w : World) :
  jobs (queue (snd (create dto w))) =
  if fst (next_fault (queue w)) then jobs (queue w)
  else fst (snd (enqueue (create_request (saved_row dto w))
                         (jobs (queue w), counter (queue w)))).
Proof.
  unfold saved_row. open_world w.
  unfold next_fault; destruct (faults q0) as [| [|] fs]; fields; try reflexivity;
    cbn [jobs counter];
    fold (create_request (new_row dto (uu sr) nw));
    destruct (enqueue _ _) as [j [js n]]; reflexivity.
Qed.

(** The first row a [WHERE id = :id RETURNING *] update gives back is the
    patched image of the first row that carries the id. *)
Lemma returning_head (i : string) (f : Task -> Task) (rows : list Task) :
  (forall t, id (f t) = id t) ->
  nth_error (filter (has_id i) (map (fun t => if has_id i t then f t else t) rows)) 0 =
  option_map f (find (has_id i) rows).
Proof.
  intros Hid. induction rows as [| t rows IH]; simpl.
  - reflexivity.
  - destruct (has_id i t) eqn:E.
    + unfold has_id at 1. rewrite Hid. fold (has_id i t). rewrite E. reflexivity.
    + rewrite E. exact IH.
Qed.

Lemma apply_patch_id (dto : UpdateTaskDto) (t : Timestamp) (row : Task) :
  id (apply_patch dto t row) = id row.
Proof. reflexivity. Qed.

Ltac update_cases :=
  match goal with
  | |- context [find (has_id ?i) ?ts] =>
      destruct (find (has_id i) ts) as [before |] eqn:F; fields; cbn [option_map];
      [ match goal with
        | |- context [apply_patch ?dto ?nw] =>
            rewrite (returning_head i (apply_patch dto nw) ts (apply_patch_id dto nw)), F;
            cbn [option_map];
            destruct (status_changed dto (project before)); fields;
            [| try reflexivity]
        end
      | try reflexivity ]
  end.

Lemma update_fst (i : string) (dto : UpdateTaskDto) (w : World) :
  fst (update i dto w) =
  match find (has_id i) (tasks w) with
  | None => Throw (NotFoundException "Task not found")
  | Some before => Ok (Some (apply_patch dto (now w) before))
  end.
Proof. open_world w. update_cases. queue_cases q0. Qed.

Lemma update_tasks (i : string) (dto : UpdateTaskDto) (w : World) :
  tasks (snd (update i dto w)) =
  match find (has_id i) (tasks w) with
  | None => tasks w
  | Some _ => patch_rows i dto (now w) (tasks w)
  end.
Proof. unfold patch_rows. open_world w. update_cases. queue_cases q0. Qed.

Lemma update_calls (i : string) (dto : UpdateTaskDto) (w : World) :
  calls (queue (snd (update i dto w))) =
  match find (has_id i) (tasks w) with
  | None => calls (queue w)
  | Some before =>
      if status_changed dto (project before) then
        calls (queue w) ++
        [CallAdd (update_request (apply_patch dto (now w) before))
                 (fst (next_fault (queue w)))]
      else calls (queue w)
  end.
Proof. open_world w. update_cases. queue_cases q0. Qed.

Lemma update_jobs (i : string) (dto : UpdateTaskDto) (w : World) :
  jobs (queue (snd (update i dto w))) =
  match find (has_id i) (tasks w) with
  | None => jobs (queue w)
  | Some before =>
      if status_changed dto (project before) && negb (fst (next_fault (queue w))) then
        fst (snd (enqueue (update_request (apply_patch dto (now w) before))
                          (jobs (queue w), counter (queue w))))
      else jobs (queue w)
  end.
Proof.
  open_world w. update_cases.
  unfold next_fault; destruct (faults q0) as [| [|] fs]; fields; try reflexivity;
    cbn [jobs counter andb negb];
    fold (update_request (apply_patch dto nw before));
    destruct (enqueue _ _) as [j [js n]]; reflexivity.
Qed.

Lemma update_logs (i : string) (dto : UpdateTaskDto) (w : World) :
  logs (snd (update i dto w)) =
  match find (has_id i) (tasks w) with
  | None => logs w
  | Some before =>
      if status_changed dto (project before) && fst (next_fault (queue w)) then
        logs w ++ [mkLogEntry LWarn "TasksService"
                     ("Failed to enqueue status update for task " +++ id before)]
      else logs w
  end.
Proof. open_world w. update_cases. queue_cases q0. Qed.

Ltac batch_cases dto :=
  destruct dto as [ids action]; unfold batch_answer, batch_rows, batch_statements;
  cbn [b_tasks b_action];
  destruct ids as [| i0 ids'];
  [ try reflexivity
  | unfold existing_ids, completed_raw, complete_items, delete_items;
    match goal with |- context [batchProcess _ ?w] => open_world w end;
    cbn [length Nat.eqb b_tasks b_action];
    destruct (String.eqb action COMPLETE); fields;
    [ destruct (Set_from (map s_id (map project (filter _ _)))) as [| f0 fs0];
      fields;
      [ | match goal with
          | |- context [negb (Nat.eqb ?n 0)] => destruct (negb (Nat.eqb n 0)); fields
          end ]
    | destruct (String.eqb action DELETE); fields;
      [ destruct (Set_from (map s_id (map project (filter _ _)))) as [| f0 fs0];
        fields | ] ] ].

Lemma no_id_completes (t : Timestamp) (rows : list Task) :
  map (fun r => if to_complete [] r then complete_row t r else r) rows = rows.
Proof. induction rows as [| r rows IH]; simpl; [reflexivity | f_equal; exact IH]. Qed.

(** A batch that answers a report found one of its ids. *)
Lemma found_ok {A} (found : list string) (e : Exn) (x r : A) :
  match found with [] => Throw e | _ :: _ => Ok x end = Ok r -> x = r /\ found <> [].
Proof. destruct found; [discriminate |]. intros H. injection H as ->. now split. Qed.

Lemma no_id_deletes (rows : list Task) :
  filter (fun r => negb (Set_has [] (id r))) rows = rows.
Proof. induction rows as [| r rows IH]; simpl; [reflexivity | f_equal; exact IH]. Qed.

Lemma batch_fst (dto : BatchProcessDto) (w : World) :
  fst (batchProcess dto w) = batch_answer dto (tasks w) (now w).
Proof.
  batch_cases dto; try reflexivity.
  unfold next_fault; destruct (faults q0) as [| [|] fs]; fields;
    try reflexivity; destruct (enqueue_all _ _) as [js n]; reflexivity.
Qed.

Lemma batch_tasks (dto : BatchProcessDto) (w : World) :
  tasks (snd (batchProcess dto w)) = batch_rows dto (tasks w) (now w).
Proof.
  batch_cases dto; try reflexivity;
    try (symmetry; apply no_id_completes); try (symmetry; apply no_id_deletes).
  unfold next_fault; destruct (faults q0) as [| [|] fs]; fields;
    try reflexivity; destruct (enqueue_all _ _) as [js n]; reflexivity.
Qed.

Lemma batch_logs (dto : BatchProcessDto) (w : World) :
  logs (snd (batchProcess dto w)) = logs w.
Proof.
  batch_cases dto; try reflexivity.
  unfold next_fault; destruct (faults q0) as [| [|] fs]; fields;
    try reflexivity; destruct (enqueue_all _ _) as [js n]; reflexivity.
Qed.

Lemma batch_stmts (dto : BatchProcessDto) (w : World) :
  statements (snd (batchProcess dto w)) =
  statements w ++ batch_statements dto (tasks w).
Proof.
  batch_cases dto; try (symmetry; apply app_nil_r);
    try (repeat rewrite <- app_assoc; reflexivity).
  unfold next_fault; destruct (faults q0) as [| [|] fs]; fields;
    try (repeat rewrite <- app_assoc; reflexivity);
    destruct (enqueue_all _ _) as [js n]; repeat rewrite <- app_assoc; reflexivity.
Qed.

Lemma batch_calls (dto : BatchProcessDto) (w : World) :
  calls (queue (snd (batchProcess dto w))) =
  match batch_answer dto (tasks w) (now w) with
  | Ok _ =>
      if String.eqb (b_action dto) COMPLETE then
        match map s_id (completed_raw (now w) (existing_ids (b_tasks dto) (tasks w)) (tasks w)) with
        | [] => calls (queue w)
        | changed =>
            calls (queue w) ++
            [CallAddBulk (map status_update_request changed) (fst (next_fault (queue w)))]
        end
      else calls (queue w)
  | _ => calls (queue w)
  end.
Proof.
  destruct dto as [ids action]; unfold batch_answer; cbn [b_tasks b_action].
  destruct ids as [| i0 ids']; [reflexivity |].
  unfold existing_ids, completed_raw.
  open_world w. cbn [length Nat.eqb b_tasks b_action].
  destruct (String.eqb action COMPLETE); fields.
  - destruct (Set_from (map s_id (map project (filter _ _)))) as [| f0 fs0];
      fields; [reflexivity |].
    match goal with
    | |- context [map s_id ?l] => destruct (map s_id l) as [| c cs] eqn:E
    end; cbn [length Nat.eqb negb]; fields; [reflexivity |].
    unfold next_fault; destruct (faults q0) as [| [|] fs]; fields;
      try reflexivity; destruct (enqueue_all _ _) as [js n]; reflexivity.
  - destruct (String.eqb action DELETE); fields; [| reflexivity].
    destruct (Set_from (map s_id (map project (filter _ _)))) as [| f0 fs0];
      reflexivity.
Qed.

Lemma find_patch_rows (i : string) (dto : UpdateTaskDto) (t : Timestamp)
      (rows : list Task) :
  find (has_id i) (patch_rows i dto t rows) =
  option_map (apply_patch dto t) (find (has_id i) rows).
Proof.
  unfold patch_rows. induction rows as [| r rows IH]; simpl.
  - reflexivity.
  - destruct (has_id i r) eqn:E.
    + unfold has_id at 1. rewrite apply_patch_id. fold (has_id i r). now rewrite E.
    + rewrite E. exact IH.
Qed.

Lemma find_has_id (i : string) (rows : list Task) (t : Task) :
  find (has_id i) rows = Some t -> In t rows /\ id t = i.
Proof.
  intros F. apply find_some in F. destruct F as [Hin Hid].
  split; [exact Hin | apply String.eqb_eq, Hid].
Qed.

(* ----------------------------------------------------------------- *)
(** *** Failure isolation of the queue (C1) *)

(** C1, as stated, fails for [batchProcess]: the enqueue of a [complete]
    batch throws, the batch still answers its result, but nothing is
    written to the log (the [catch] block is empty). *)
Lemma C1_batch_swallows_without_log :
  let w := world_of [taskA; taskB] broken_queue in
  let out := batchProcess (mkBatchProcessDto ["A"] COMPLETE) w in
  fst out = Ok (mkBatchProcessResult COMPLETE 1 1 0 [ItemSuccess "A" updated_]) /\
  calls (queue (snd out)) = [CallAddBulk [status_update_request "A"] true] /\
  ~ (exists entry, In entry (logs (snd out))).
Proof.
  cbv zeta. split; [vm_compute; reflexivity |].
  split; [vm_compute; reflexivity |].
  intros [entry H]. vm_compute in H. exact H.
Qed.

(** C1 (amended): whatever the state of the queue, [create], [update] and
    [batchProcess] answer what the store mutation alone determines and
    commit the same rows: a queue error is never propagated and the rows
    are those of a run in which the enqueue succeeds.  [create] and
    [update] write a warning to the log when the enqueue throws;
    [batchProcess] swallows the error without a log line. *)
Theorem C1_queue_failure_isolated (w : World) (q1 q2 : Queue) :
  (forall dto,
      fst (create dto (set_queue q1 w)) = Ok (saved_row dto w) /\
      fst (create dto (set_queue q1 w)) = fst (create dto (set_queue q2 w)) /\
      tasks (snd (create dto (set_queue q1 w))) =
      tasks (snd (create dto (set_queue q2 w))) /\
      logs (snd (create dto (set_queue q1 w))) =
      if queue_down q1 then
        logs w ++ [mkLogEntry LWarn "TasksService"
                     ("Queue unavailable; will retry later for task "
                        +++ id (saved_row dto w))]
      else logs w) /\
  (forall i dto,
      fst (update i dto (set_queue q1 w)) =
      match find (has_id i) (tasks w) with
      | None => Throw (NotFoundException "Task not found")
      | Some before => Ok (Some (apply_patch dto (now w) before))
      end /\
      fst (update i dto (set_queue q1 w)) = fst (update i dto (set_queue q2 w)) /\
      tasks (snd (update i dto (set_queue q1 w))) =
      tasks (snd (update i dto (set_queue q2 w))) /\
      logs (snd (update i dto (set_queue q1 w))) =
      match find (has_id i) (tasks w) with
      | None => logs w
      | Some before =>
          if status_changed dto (project before) && queue_down q1 then
            logs w ++ [mkLogEntry LWarn "TasksService"
                         ("Failed to enqueue status update for task " +++ id before)]
          else logs w
      end) /\
  (forall dto,
      fst (batchProcess dto (set_queue q1 w)) <> Throw QueueUnavailable /\
      fst (batchProcess dto (set_queue q1 w)) = fst (batchProcess dto (set_queue q2 w)) /\
      tasks (snd (batchProcess dto (set_queue q1 w))) =
      tasks (snd (batchProcess dto (set_queue q2 w))) /\
      logs (snd (batchProcess dto (set_queue q1 w))) = logs w).
Proof.
  split; [| split].
  - intros dto. rewrite !create_fst, !create_tasks, create_logs.
    repeat split; reflexivity.
  - intros i dto. rewrite !update_fst, !update_tasks, update_logs.
    repeat split; reflexivity.
  - intros dto. rewrite !batch_fst, !batch_tasks, batch_logs.
    repeat split; try reflexivity.
    unfold batch_answer. destruct (b_tasks dto); [discriminate |].
    cbv zeta. unfold empty_in_list.
    destruct (String.eqb (b_action dto) COMPLETE);
      [destruct (existing_ids _ _); discriminate |].
    destruct (String.eqb (b_action dto) DELETE);
      [destruct (existing_ids _ _); discriminate | discriminate].
Qed.

(* ----------------------------------------------------------------- *)
(** *** Enqueue on status change (C4, C5) *)

Lemma status_changed_true (dto : UpdateTaskDto) (before : Task) :
  status_changed dto (project before) = true <-> asks_new_status dto before.
Proof.
  unfold status_changed, asks_new_status. cbn [s_status project].
  destruct (u_status dto) as [s |].
  - rewrite negb_true_iff, String.eqb_neq. split.
    + intros H. exists s. split; [reflexivity | exact H].
    + intros [s' [E H]]. injection E as ->. exact H.
  - split; [discriminate | intros [s [E _]]; discriminate].
Qed.

Lemma app_one_neq {A} (l : list A) (x : A) : l ++ [x] <> l.
Proof.
  intros E. apply (f_equal (@length A)) in E.
  rewrite length_app in E. simpl in E. lia.
Qed.

(** C4: for an existing task, [update] calls [taskQueue.add] with a
    task-status-update job exactly when the patch carries a status that
    differs from the status read before the update, and then exactly once;
    a second update to the status the first one set makes no call. *)
Theorem C4_update_enqueues_iff_status_changed
        (w : World) (i : string) (dto : UpdateTaskDto) (before : Task) :
  find (has_id i) (tasks w) = Some before ->
  let after := snd (update i dto w) in
  (asks_new_status dto before <-> calls (queue after) <> calls (queue w)) /\
  (asks_new_status dto before ->
   calls (queue after) =
   calls (queue w) ++
   [CallAdd (mkJobRequest "task-status-update"
               (status_update_data i (patch (u_status dto) (status before)))
               no_options)
            (queue_down (queue w))]) /\
  (forall dto2, u_status dto2 = u_status dto ->
                calls (queue (snd (update i dto2 after))) = calls (queue after)).
Proof.
  intros F after.
  assert (Hcalls := update_calls i dto w). rewrite F in Hcalls. fold after in Hcalls.
  destruct (find_has_id _ _ F) as [_ Hid].
  split; [| split].
  - rewrite <- status_changed_true.
    destruct (status_changed dto (project before)); rewrite Hcalls.
    + split; [intros _; apply app_one_neq | reflexivity].
    + split; [discriminate | intros H; now elim H].
  - intros H. apply status_changed_true in H. rewrite H in Hcalls.
    rewrite Hcalls. unfold update_request. cbn [id status apply_patch].
    rewrite Hid. reflexivity.
  - intros dto2 E. rewrite update_calls.
    unfold after at 1. rewrite update_tasks, F, find_patch_rows, F. cbn [option_map].
    replace (status_changed dto2 (project (apply_patch dto (now w) before))) with false;
      [reflexivity |].
    unfold status_changed. rewrite E. cbn [s_status project status apply_patch].
    destruct (u_status dto) as [s |]; [| reflexivity].
    cbn [patch]. now rewrite String.eqb_refl.
Qed.

Lemma C4_witness :
  find (has_id "A") (tasks world_AB) = Some taskA /\
  calls (queue (snd (update "A" (mkUpdateTaskDto None None (Some IN_PROGRESS) None None)
                            world_AB))) <> calls (queue world_AB).
Proof.
  split; [reflexivity |].
  apply (C4_update_enqueues_iff_status_changed
           world_AB "A" (mkUpdateTaskDto None None (Some IN_PROGRESS) None None)
           (before := taskA) eq_refl).
  exists IN_PROGRESS. split; [reflexivity | discriminate].
Defined.

(** C5 fails on the update path.  Task A goes pending -> in_progress ->
    pending -> in_progress through [update]: every call hands the queue a
    request without a [jobId], and two jobs for the same (A, in_progress)
    event are pending at the end.  On the create path the request carries
    the key task-status-update:<id>:<status>, and handing it to the queue
    twice leaves one pending job. *)
Theorem C5_update_enqueue_has_no_dedupe_key :
  let w1 := snd (update "A" (set_status_dto IN_PROGRESS) world_AB) in
  let w2 := snd (update "A" (set_status_dto PENDING) w1) in
  let w3 := snd (update "A" (set_status_dto IN_PROGRESS) w2) in
  map job_summary (jobs (queue w3)) =
  [("task-status-update", status_update_data "A" IN_PROGRESS, None);
   ("task-status-update", status_update_data "A" PENDING, None);
   ("task-status-update", status_update_data "A" IN_PROGRESS, None)] /\
  map job_id (jobs (queue w3)) = ["1"; "2"; "3"] /\
  map job_summary (fst (enqueue_all [create_request taskA; create_request taskA] ([], 0))) =
  [("task-status-update", status_update_data "A" PENDING,
    Some "task-status-update:A:pending")].
Proof. vm_compute. repeat split. Qed.

(** On the update path no request ever carries a [jobId]. *)
Lemma update_request_unkeyed (u : Task) : jobId (q_opts (update_request u)) = None.
Proof. reflexivity. Qed.

(** On the create path the key is a function of (taskId, status). *)
Lemma create_request_keyed (saved : Task) :
  jobId (q_opts (create_request saved)) =
  Some ("task-status-update:" +++ id saved +++ ":" +++ status saved).
Proof. reflexivity. Qed.

(* ----------------------------------------------------------------- *)
(** *** Frame of an update (C10) *)

Lemma patch_rows_other (i : string) (dto : UpdateTaskDto) (t : Timestamp)
      (rows : list Task) (r : Task) :
  id r <> i -> In r rows -> In r (patch_rows i dto t rows).
Proof.
  intros Hne Hin. unfold patch_rows. apply in_map_iff. exists r.
  split; [| exact Hin].
  unfold has_id. apply String.eqb_neq in Hne. now rewrite Hne.
Qed.

(** C10: an update of an existing task answers the stored row in which
    every field that the patch leaves out has its former value, except
    [updatedAt], which is set to the current time; [id], [createdAt] and
    [userId] are never changed, and no other row is touched. *)
Theorem C10_update_frame (w : World) (i : string) (dto : UpdateTaskDto) (before : Task) :
  find (has_id i) (tasks w) = Some before ->
  exists u,
    fst (update i dto w) = Ok (Some u) /\
    find (has_id i) (tasks (snd (update i dto w))) = Some u /\
    id u = id before /\
    createdAt u = createdAt before /\
    userId u = userId before /\
    updatedAt u = now w /\
    (u_title dto = None -> title u = title before) /\
    (u_description dto = None -> description u = description before) /\
    (u_status dto = None -> status u = status before) /\
    (u_priority dto = None -> priority u = priority before) /\
    (u_dueDate dto = None -> dueDate u = dueDate before) /\
    (forall r, In r (tasks w) -> id r <> i -> In r (tasks (snd (update i dto w)))) /\
    length (tasks (snd (update i dto w))) = length (tasks w).
Proof.
  intros F. exists (apply_patch dto (now w) before).
  rewrite update_fst, update_tasks, F, find_patch_rows, F. cbn [option_map].
  repeat split; try reflexivity;
    try (intros E; cbn [title description status priority dueDate apply_patch];
         rewrite E; reflexivity).
  - intros r Hin Hne. now apply patch_rows_other.
  - unfold patch_rows. apply length_map.
Qed.

Lemma C10_witness :
  find (has_id "B") (tasks world_AB) = Some taskB /\
  exists u,
    fst (update "B" (mkUpdateTaskDto (Some "file taxes 2024") None None None None)
                world_AB) = Ok (Some u) /\
    status u = COMPLETED /\ description u = Some "done in March" /\
    updatedAt u = 100%Z /\ createdAt u = 11%Z.
Proof.
  split; [reflexivity |].
  destruct (C10_update_frame world_AB "B"
              (mkUpdateTaskDto (Some "file taxes 2024") None None None None)
              (before := taskB) eq_refl)
    as [u [H1 [_ [_ [H4 [_ [H6 [_ [H8 [H9 _]]]]]]]]]].
  exists u. split; [exact H1 |].
  split; [apply H9; reflexivity |].
  split; [apply H8; reflexivity |].
  split; [exact H6 | exact H4].
Defined.

(* ----------------------------------------------------------------- *)
(** *** Batch processing (C2, C3, C8) *)

Lemma existing_ids_In (ids : list string) (rows : list Task) (i : string) :
  In i (existing_ids ids rows) <-> In i ids /\ In i (map id rows).
Proof.
  unfold existing_ids. rewrite Set_from_In, map_map. cbn [s_id project].
  rewrite !in_map_iff. split.
  - intros [t [E H]]. apply filter_In in H. destruct H as [Hin Hhas].
    apply Set_has_true in Hhas. subst i. split; [exact Hhas |].
    exists t. split; [reflexivity | exact Hin].
  - intros [Hi [t [E Hin]]]. exists t. split; [exact E |].
    apply filter_In. split; [exact Hin |]. apply Set_has_true. now rewrite E.
Qed.

Lemma same_id_same_row (rows : list Task) (x y : Task) :
  NoDup (map id rows) -> In x rows -> In y rows -> id x = id y -> x = y.
Proof.
  induction rows as [| r rows IH]; simpl; [tauto |].
  intros ND Hx Hy E. inversion ND as [| ? ? Hnotin ND']; subst.
  destruct Hx as [-> | Hx], Hy as [-> | Hy].
  - reflexivity.
  - elim Hnotin. rewrite E. now apply in_map.
  - elim Hnotin. rewrite <- E. now apply in_map.
  - now apply IH.
Qed.

Lemma filter_none {A} (p : A -> bool) (l : list A) :
  (forall x, In x l -> p x = false) -> filter p l = [].
Proof.
  induction l as [| x l IH]; simpl; [reflexivity |].
  intros H. rewrite (H x (or_introl eq_refl)). apply IH. intros y Hy. apply H. now right.
Qed.

Lemma filter_only (p : Task -> bool) (rows : list Task) (a : Task) :
  NoDup (map id rows) -> In a rows -> p a = true ->
  (forall t, In t rows -> p t = true -> id t = id a) ->
  filter p rows = [a].
Proof.
  induction rows as [| r rows IH]; simpl; [tauto |].
  intros ND Hin Hp Hall. inversion ND as [| ? ? Hnotin ND']; subst.
  destruct Hin as [-> | Hin].
  - rewrite Hp. f_equal. apply filter_none. intros t Ht.
    destruct (p t) eqn:E; [| reflexivity].
    elim Hnotin. rewrite <- (Hall t (or_intror Ht) E). now apply in_map.
  - destruct (p r) eqn:E.
    + elim Hnotin. rewrite (Hall r (or_introl eq_refl) E). now apply in_map.
    + apply IH; auto.
Qed.

(** C2: completing the batch [A; B; C], where A is pending, B is already
    completed and C is not in the store, answers requested 3, affected 1,
    notFound 1 and one entry per id: A updated, B noop, C not_found. *)
Theorem C2_batch_complete_scenario (w : World) (A B C : string) (a b : Task) :
  A <> B -> A <> C -> B <> C ->
  NoDup (map id (tasks w)) ->
  In a (tasks w) -> id a = A -> status a = PENDING ->
  In b (tasks w) -> id b = B -> status b = COMPLETED ->
  ~ In C (map id (tasks w)) ->
  fst (batchProcess (mkBatchProcessDto [A; B; C] COMPLETE) w) =
  Ok (mkBatchProcessResult COMPLETE 3 1 1
        [ItemSuccess A updated_; ItemSuccess B noop_; ItemFailure C "not_found"]).
Proof.
  intros AB AC BC ND Ha Ia Sa Hb Ib Sb HC.
  rewrite batch_fst. unfold batch_answer. cbn [b_tasks b_action].
  rewrite String.eqb_refl. cbv zeta.
  set (found := existing_ids [A; B; C] (tasks w)).
  assert (FA : Set_has found A = true).
  { apply Set_has_true, existing_ids_In. split; [now left |].
    rewrite <- Ia. now apply in_map. }
  assert (FB : Set_has found B = true).
  { apply Set_has_true, existing_ids_In. split; [right; now left |].
    rewrite <- Ib. now apply in_map. }
  assert (FC : Set_has found C = false).
  { apply Set_has_false. unfold found. rewrite existing_ids_In. tauto. }
  assert (R : filter (to_complete found) (tasks w) = [a]).
  { apply filter_only; auto.
    - unfold to_complete. rewrite Ia, FA, Sa. reflexivity.
    - intros t Ht Hp. unfold to_complete in Hp. apply andb_prop in Hp.
      destruct Hp as [Hf Hs]. apply Set_has_true, existing_ids_In in Hf.
      destruct Hf as [[E | [E | [E | []]]] Hstore].
      + now rewrite Ia.
      + assert (t = b) by (apply (same_id_same_row (tasks w)); auto; congruence).
        subst t. rewrite Sb in Hs. discriminate.
      + rewrite <- E in Hstore. tauto. }
  clearbody found. destruct found as [| f0 fs0]; [discriminate FA |].
  cbv iota. unfold completed_raw. rewrite R. cbn [map length filter project s_id id complete_row].
  rewrite Ia. unfold complete_items. cbn [map].
  rewrite FA, FB, FC. cbn [negb length].
  rewrite !Set_from_has. unfold Set_has. cbn [existsb].
  rewrite String.eqb_refl.
  apply not_eq_sym in AB. apply String.eqb_neq in AB. rewrite AB.
  reflexivity.
Qed.

Lemma C2_witness :
  fst (batchProcess (mkBatchProcessDto ["A"; "B"; "C"] COMPLETE) world_AB) =
  Ok (mkBatchProcessResult COMPLETE 3 1 1
        [ItemSuccess "A" updated_; ItemSuccess "B" noop_; ItemFailure "C" "not_found"]).
Proof.
  apply (@C2_batch_complete_scenario world_AB "A" "B" "C" taskA taskB);
    try discriminate; try reflexivity.
  - repeat constructor; simpl; intuition discriminate.
  - now left.
  - right; now left.
  - simpl. intuition discriminate.
Defined.

Lemma complete_items_ids (found updatedIds ids : list string) :
  map item_taskId (complete_items found updatedIds ids) = ids.
Proof.
  unfold complete_items. rewrite map_map. rewrite <- (map_id ids) at 2.
  apply map_ext. intros i.
  destruct (negb (Set_has found i)); [reflexivity |].
  destruct (Set_has (Set_from updatedIds) i); reflexivity.
Qed.

Lemma delete_items_ids (found ids : list string) :
  map item_taskId (delete_items found ids) = ids.
Proof.
  unfold delete_items. rewrite map_map. rewrite <- (map_id ids) at 2.
  apply map_ext. intros i. destruct (negb (Set_has found i)); reflexivity.
Qed.

Lemma complete_items_known (found updatedIds ids : list string) :
  Forall known_outcome (complete_items found updatedIds ids).
Proof.
  unfold complete_items. apply Forall_forall. intros r Hr.
  apply in_map_iff in Hr. destruct Hr as [i [<- _]]. unfold known_outcome.
  destruct (negb (Set_has found i)); [tauto |].
  destruct (Set_has (Set_from updatedIds) i); tauto.
Qed.

Lemma delete_items_known (found ids : list string) :
  Forall known_outcome (delete_items found ids).
Proof.
  unfold delete_items. apply Forall_forall. intros r Hr.
  apply in_map_iff in Hr. destruct Hr as [i [<- _]]. unfold known_outcome.
  destruct (negb (Set_has found i)); tauto.
Qed.

(** The [Set] of a list has as many members as the list has distinct
    elements. *)
Lemma Set_from_length (l : list string) :
  length (Set_from l) = length (nodup string_dec l).
Proof.
  apply Permutation_length, NoDup_Permutation.
  - apply Set_from_NoDup.
  - apply NoDup_nodup.
  - intros x. rewrite Set_from_In, nodup_In. tauto.
Qed.

(** Whether one of the requested ids is the id of a stored row. *)
Lemma existing_ids_nil (ids : list string) (rows : list Task) :
  existing_ids ids rows = [] <-> ~ some_exists ids rows.
Proof.
  unfold some_exists. split.
  - intros E [i [Hi Hs]].
    assert (H : In i (existing_ids ids rows)) by (apply existing_ids_In; tauto).
    rewrite E in H. exact H.
  - intros H. destruct (existing_ids ids rows) as [| f fs] eqn:E; [reflexivity |].
    elim H. exists f. apply existing_ids_In. rewrite E. now left.
Qed.

Lemma some_exists_dec (ids : list string) (rows : list Task) :
  some_exists ids rows \/ ~ some_exists ids rows.
Proof.
  destruct (existing_ids ids rows) as [| f fs] eqn:E.
  - right. now apply existing_ids_nil.
  - left. exists f. apply existing_ids_In. rewrite E. now left.
Qed.

(** C3 fails on the code when none of the requested ids is in the store:
    the UPDATE (or DELETE) is then restricted to the empty list of
    existing ids, the statement is rejected, the transaction is rolled
    back and no report is returned, although the ids were looked up to
    report those not found; one stored id among the requested ones is
    enough for the missing id to be reported as not_found. *)
Theorem C3_no_existing_id_throws :
  let complete :=
    batchProcess (mkBatchProcessDto (dedupe_tasks ["C"; "C"]) COMPLETE) world_AB in
  let delete :=
    batchProcess (mkBatchProcessDto (dedupe_tasks ["C"; "C"]) DELETE) world_AB in
  fst complete = Throw (QueryFailedError "syntax error at or near )") /\
  statements (snd complete) = [Begin; SelectIn ["C"]; UpdateCompleted []; Rollback] /\
  fst delete = Throw (QueryFailedError "syntax error at or near )") /\
  statements (snd delete) = [Begin; SelectIn ["C"]; DeleteIn []; Rollback] /\
  tasks (snd complete) = [taskA; taskB] /\ tasks (snd delete) = [taskA; taskB] /\
  fst (batchProcess (mkBatchProcessDto (dedupe_tasks ["C"; "A"; "C"]) DELETE) world_AB) =
  Ok (mkBatchProcessResult DELETE 2 1 1
        [ItemFailure "C" "not_found"; ItemSuccess "A" deleted_]).
Proof. vm_compute. repeat split. Qed.

(** When one of the ids is in the store, a batch with ids deduplicated by
    the DTO and the action complete or delete answers a report with one
    entry per distinct id: as many entries as distinct ids, no id twice,
    every id of the input present, and every entry tagged updated, noop,
    deleted or not_found. *)
Theorem batch_one_entry_per_distinct_id
        (raw : list string) (action : BatchAction) (w : World) :
  some_exists raw (tasks w) ->
  action = COMPLETE \/ action = DELETE ->
  exists r,
    fst (batchProcess (mkBatchProcessDto (dedupe_tasks raw) action) w) = Ok r /\
    length (r_results r) = length (nodup string_dec raw) /\
    NoDup (map item_taskId (r_results r)) /\
    (forall i, In i raw <-> In i (map item_taskId (r_results r))) /\
    Forall known_outcome (r_results r).
Proof.
  intros Hex Hact. rewrite batch_fst. unfold batch_answer, dedupe_tasks.
  cbn [b_tasks b_action].
  assert (Hne : raw <> []).
  { destruct Hex as [i [Hi _]]. intros ->. exact Hi. }
  assert (Hids := Set_from_nonempty Hne).
  assert (Hfound : existing_ids (Set_from raw) (tasks w) <> []).
  { rewrite existing_ids_nil. intros H. apply H.
    destruct Hex as [i [Hi Hs]]. exists i. now rewrite Set_from_In. }
  destruct (Set_from raw) as [| i0 ids'] eqn:E; [congruence |]. rewrite <- E in *.
  cbv zeta.
  destruct (existing_ids (Set_from raw) (tasks w)) as [| f0 fs0] eqn:EF; [congruence |].
  rewrite <- EF.
  destruct Hact as [-> | ->].
  - rewrite String.eqb_refl. eexists. split; [reflexivity |]. cbn [r_results].
    rewrite complete_items_ids.
    split; [rewrite <- Set_from_length; unfold complete_items; apply length_map |].
    split; [apply Set_from_NoDup |].
    split; [intros i; now rewrite Set_from_In | apply complete_items_known].
  - replace (String.eqb DELETE COMPLETE) with false by reflexivity.
    rewrite String.eqb_refl. eexists. split; [reflexivity |]. cbn [r_results].
    rewrite delete_items_ids.
    split; [rewrite <- Set_from_length; unfold delete_items; apply length_map |].
    split; [apply Set_from_NoDup |].
    split; [intros i; now rewrite Set_from_In | apply delete_items_known].
Qed.

Lemma batch_one_entry_per_distinct_id_witness :
  some_exists ["A"; "C"; "A"; "B"; "C"] (tasks world_AB) /\
  exists r,
    fst (batchProcess (mkBatchProcessDto (dedupe_tasks ["A"; "C"; "A"; "B"; "C"]) DELETE)
                      world_AB) = Ok r /\
    length (r_results r) = 3.
Proof.
  assert (Hex : some_exists ["A"; "C"; "A"; "B"; "C"] (tasks world_AB)).
  { exists "A". split; simpl; tauto. }
  split; [exact Hex |].
  destruct (@batch_one_entry_per_distinct_id ["A"; "C"; "A"; "B"; "C"] DELETE world_AB
              Hex (or_intror eq_refl))
    as [r [H1 [H2 _]]].
  exists r. split; [exact H1 |].
  rewrite H2. vm_compute. reflexivity.
Defined.

(** C8, as stated, fails: a batch with an unknown action is rejected only
    after the transaction was opened and the ids were looked up. *)
Lemma C8_unknown_action_reads_first :
  let out := batchProcess (mkBatchProcessDto ["A"] "archive") world_AB in
  fst out = Throw (BadRequestException "Unknown action: archive") /\
  statements world_AB = [] /\
  statements (snd out) = [Begin; SelectIn ["A"]; Rollback].
Proof. vm_compute. repeat split. Qed.

(** C8 (amended): a batch whose action is neither complete nor delete
    fails with a BadRequestException and changes no row and issues no
    writing statement; for a non-empty id list the rejection comes after
    the transaction was opened and the existing ids were selected, and the
    transaction is rolled back. *)
Theorem C8_unknown_action_rejected (dto : BatchProcessDto) (w : World) :
  b_action dto <> COMPLETE ->
  b_action dto <> DELETE ->
  let out := batchProcess dto w in
  (exists msg, fst out = Throw (BadRequestException msg)) /\
  tasks (snd out) = tasks w /\
  exists issued,
    statements (snd out) = statements w ++ issued /\
    Forall (fun s => is_write s = false) issued /\
    issued = match b_tasks dto with
             | [] => []
             | _ :: _ => [Begin; SelectIn (b_tasks dto); Rollback]
             end.
Proof.
  intros NC ND out. unfold out.
  rewrite batch_fst, batch_tasks, batch_stmts.
  unfold batch_answer, batch_rows, batch_statements.
  apply String.eqb_neq in NC, ND. rewrite NC, ND.
  destruct (b_tasks dto) as [| i0 ids'].
  - split; [eexists; reflexivity |]. split; [reflexivity |].
    exists []. repeat split. constructor.
  - split; [eexists; reflexivity |]. split; [reflexivity |].
    eexists. split; [reflexivity |]. split; [| reflexivity].
    repeat constructor.
Qed.

Lemma C8_witness :
  exists msg,
    fst (batchProcess (mkBatchProcessDto ["A"; "B"] "archive") world_AB) =
    Throw (BadRequestException msg).
Proof.
  apply (@C8_unknown_action_rejected (mkBatchProcessDto ["A"; "B"] "archive") world_AB);
    discriminate.
Defined.

(* ----------------------------------------------------------------- *)
(** *** Overdue tasks, page by page (C9) *)

Lemma overdue_spec (t : Timestamp) (row : Task) :
  overdue t row = true <-> pending_and_due t row.
Proof.
  unfold overdue, pending_and_due. rewrite andb_true_iff, String.eqb_eq.
  destruct (dueDate row) as [d |].
  - rewrite Z.ltb_lt. split.
    + intros [H1 H2]. split; [exact H2 |]. exists d. now split.
    + intros [H2 [d' [E H1]]]. injection E as <-. now split.
  - split; [intros [H _]; discriminate | intros [_ [d [E _]]]; discriminate].
Qed.

Lemma findOverdueTasks_fst (limit offset : nat) (w : World) :
  fst (findOverdueTasks limit offset w) =
  Ok (firstn limit (skipn offset (filter (overdue (now w)) (tasks w)))).
Proof. unfold findOverdueTasks, repo_find_overdue. open_world w. reflexivity. Qed.

Lemma findOverdueTasks_snd (limit offset : nat) (w : World) :
  snd (findOverdueTasks limit offset w) =
  set_statements (statements w ++ [SelectOverdue (now w) limit offset]) w.
Proof. unfold findOverdueTasks, repo_find_overdue. open_world w. reflexivity. Qed.

Lemma firstn_plus {A} (a b : nat) (l : list A) :
  firstn (a + b) l = firstn a l ++ firstn b (skipn a l).
Proof.
  revert l. induction a as [| a IH]; intros l; simpl; [reflexivity |].
  destruct l as [| x l]; simpl.
  - now rewrite firstn_nil.
  - now rewrite IH.
Qed.

Lemma pages_concat {A} (limit n : nat) (l : list A) :
  flat_map (fun k => firstn limit (skipn (k * limit) l)) (seq 0 n) =
  firstn (n * limit) l.
Proof.
  induction n as [| n IH]; [reflexivity |].
  rewrite seq_S, flat_map_app, IH. cbn [flat_map Nat.add]. rewrite app_nil_r.
  replace (S n * limit) with (n * limit + limit) by (simpl; lia).
  symmetry. apply firstn_plus.
Qed.

Lemma flat_map_on {A B} (f g : A -> list B) (l : list A) :
  (forall a, In a l -> f a = g a) -> flat_map f l = flat_map g l.
Proof.
  induction l as [| a l IH]; intros H; [reflexivity |].
  cbn [flat_map]. rewrite (H a (or_introl eq_refl)), IH; [reflexivity |].
  intros b Hb. apply H. now right.
Qed.

Lemma NoDup_ids_filter (p : Task -> bool) (rows : list Task) :
  NoDup (map id rows) -> NoDup (map id (filter p rows)).
Proof.
  induction rows as [| r rows IH]; simpl; [trivial |].
  intros ND. inversion ND as [| ? ? Hnotin ND']; subst.
  destruct (p r); [| now apply IH].
  simpl. constructor; [| now apply IH].
  intros H. apply Hnotin. apply in_map_iff in H. destruct H as [t [E Ht]].
  apply filter_In in Ht. rewrite <- E. apply in_map, Ht.
Qed.

(** C9, as stated, fails: a task that is in progress (not terminal) and
    whose due date is in the past is returned by no page; and since every
    call takes the current time as its cutoff, pages of one row read at
    time 100 and then at time 200 over the same three rows return one task
    twice and never the task that fell due in between. *)
Lemma C9_in_progress_not_returned :
  (let w := world_of [taskP] empty_queue in
   In taskP (tasks w) /\
   non_terminal (status taskP) = true /\
   dueDate taskP = Some 20%Z /\ (20 < now w)%Z /\
   forall limit offset, fst (findOverdueTasks limit offset w) = Ok []) /\
  (let w := world_of [taskL; taskA; taskD] empty_queue in
   page_at 1 0 100%Z w = [taskA] /\
   page_at 1 1 200%Z w = [taskA] /\
   page_at 1 2 200%Z w = [taskD] /\
   page_at 1 3 200%Z w = [] /\
   overdue 200%Z taskL = true).
Proof.
  split.
  - cbv zeta. split; [now left |]. split; [reflexivity |].
    split; [reflexivity |]. split; [reflexivity |].
    intros limit offset. rewrite findOverdueTasks_fst.
    replace (filter _ _) with (@nil Task) by reflexivity.
    rewrite skipn_nil, firstn_nil. reflexivity.
  - vm_compute. repeat split.
Qed.

(** C9 (amended): [findOverdueTasks limit offset] answers, of the rows
    that are pending and whose due date is strictly before the time of the
    call, those from position [offset] on, at most [limit] of them, in the
    scan order of the table (the query names no order), and changes no
    row.  On a store that does not change, and when no row falls due
    between the calls, the pages at offsets 0, limit, 2 limit, ... put end
    to end are the pending due rows in that order: each of them is covered
    once. *)
Theorem C9_findOverdueTasks_pages (w : World) (limit : nat) :
  let due := filter (overdue (now w)) (tasks w) in
  (forall row, In row due <-> In row (tasks w) /\ pending_and_due (now w) row) /\
  (NoDup (map id (tasks w)) -> NoDup (map id due)) /\
  (forall offset,
      fst (findOverdueTasks limit offset w) = Ok (firstn limit (skipn offset due)) /\
      tasks (snd (findOverdueTasks limit offset w)) = tasks w) /\
  (forall clock n,
      clock 0 = now w -> none_falls_due clock n (tasks w) ->
      flat_map (fun k => page_at limit k (clock k) w) (seq 0 n) = firstn (n * limit) due /\
      (length due <= n * limit ->
       flat_map (fun k => page_at limit k (clock k) w) (seq 0 n) = due)).
Proof.
  intros due.
  split; [| split; [| split]].
  - intros row. unfold due. rewrite filter_In, overdue_spec. tauto.
  - apply NoDup_ids_filter.
  - intros offset. rewrite findOverdueTasks_fst, findOverdueTasks_snd.
    split; reflexivity.
  - intros clock n H0 Hdue.
    assert (P : flat_map (fun k => page_at limit k (clock k) w) (seq 0 n) =
                firstn (n * limit) due).
    { rewrite <- pages_concat. apply flat_map_on. intros k Hk.
      apply in_seq in Hk. unfold page_at. rewrite findOverdueTasks_fst.
      replace (now (set_now (clock k) w)) with (clock k) by (destruct w; reflexivity).
      replace (tasks (set_now (clock k) w)) with (tasks w) by (destruct w; reflexivity).
      unfold due. rewrite <- H0. f_equal. f_equal.
      apply filter_ext_in. intros row Hrow. apply Hdue; [lia | exact Hrow]. }
    split; [exact P |]. intros Hn. rewrite P. now apply firstn_all2.
Qed.

(* ----------------------------------------------------------------- *)
(** *** The overdue scan (C6) *)

Lemma set_queue_twice (q q' : Queue) (w : World) :
  set_queue q' (set_queue q w) = set_queue q' w.
Proof. destruct w; reflexivity. Qed.

Lemma add_overdue_run (task : Task) (w : World) :
  faults (queue w) = [] ->
  exists q',
    add_overdue task w = (Ok tt, set_queue q' w) /\
    faults q' = [] /\
    calls q' = calls (queue w) ++ [was_added task].
Proof.
  intros Hf. unfold add_overdue, queue_add, bind, ret, next_fault. rewrite Hf.
  cbv zeta. destruct (enqueue _ _) as [j [js n]]. eexists.
  split; [reflexivity |]. split; [exact Hf | reflexivity].
Qed.

Lemma for_each_add_run (rows : list Task) (w : World) :
  faults (queue w) = [] ->
  exists q',
    for_each rows add_overdue w = (Ok tt, set_queue q' w) /\
    faults q' = [] /\
    calls q' = calls (queue w) ++ map was_added rows.
Proof.
  revert w. induction rows as [| r rows IH]; intros w Hf.
  - exists (queue w). split; [destruct w; reflexivity |].
    split; [exact Hf | symmetry; apply app_nil_r].
  - destruct (add_overdue_run r w Hf) as [q1 [E1 [F1 Hc1]]].
    destruct (IH (set_queue q1 w)) as [q2 [E2 [F2 Hc2]]]; [destruct w; exact F1 |].
    exists q2. cbn [for_each]. unfold bind at 1. rewrite E1, E2, set_queue_twice.
    split; [reflexivity |]. split; [exact F2 |].
    rewrite Hc2. replace (calls (queue (set_queue q1 w))) with (calls q1) by (destruct w; reflexivity).
    rewrite Hc1, <- app_assoc. reflexivity.
Qed.

Lemma repo_find_overdue_run (c : Timestamp) (take skip : nat) (w : World) :
  repo_find_overdue c take skip w =
  (Ok (firstn take (skipn skip (filter (overdue c) (tasks w)))),
   set_statements (statements w ++ [SelectOverdue c take skip]) w).
Proof. destruct w; reflexivity. Qed.

Lemma page_queries_snoc (w : World) (c : Timestamp) (take skip : nat) (w' : World) :
  statements w' = statements w ++ [SelectOverdue c take skip] ->
  page_queries w' = S (page_queries w).
Proof.
  intros E. unfold page_queries. rewrite E, filter_app, length_app. simpl. lia.
Qed.

Lemma div_step (n b : nat) : 0 < b -> b <= n -> n / b = S ((n - b) / b).
Proof.
  intros Hb Hn. replace n with ((n - b) + 1 * b) at 1 by lia.
  rewrite Nat.div_add by lia. lia.
Qed.

Lemma add_overdue_total (task : Task) (w : World) :
  exists r q', add_overdue task w = (r, set_queue q' w) /\ r <> Timeout.
Proof.
  unfold add_overdue, queue_add, bind, ret.
  destruct (next_fault (queue w)) as [[|] q]; cbv zeta.
  - do 2 eexists. split; [reflexivity | discriminate].
  - destruct (enqueue _ _) as [j [js n]]. do 2 eexists.
    split; [reflexivity | discriminate].
Qed.

Lemma for_each_add_total (rows : list Task) (w : World) :
  exists r q', for_each rows add_overdue w = (r, set_queue q' w) /\ r <> Timeout.
Proof.
  revert w. induction rows as [| t rows IH]; intros w.
  - exists (Ok tt), (queue w). split; [destruct w; reflexivity | discriminate].
  - destruct (add_overdue_total t w) as [r1 [q1 [E1 N1]]].
    cbn [for_each]. unfold bind at 1. rewrite E1.
    destruct r1 as [[] | e |].
    + destruct (IH (set_queue q1 w)) as [r2 [q2 [E2 N2]]].
      exists r2, q2. rewrite E2, set_queue_twice. now split.
    + exists (Throw e), q1. split; [reflexivity | discriminate].
    + now elim N1.
Qed.

Section ScanLoop.

Variable c : Timestamp.
Variable B : nat.
Hypothesis HB : 0 < B.

(** With a queue that takes every job, the loop started at page [page]
    reads the rest of the pending due rows and hands each to the queue. *)
Lemma scan_pages_run :
  forall fuel page total w,
    faults (queue w) = [] ->
    let rest := skipn (page * B) (filter (overdue c) (tasks w)) in
    length rest / B < fuel ->
    exists w',
      scan_pages fuel c B page total w = (Ok (total + length rest), w') /\
      ScanOutcome w w' rest (length rest / B + 1).
Proof.
  induction fuel as [| fuel IH]; intros page total w Hf rest Hfuel; [lia |].
  cbn [scan_pages]. unfold bind at 1. rewrite repo_find_overdue_run.
  fold rest. set (pg := firstn B rest).
  set (w0 := set_statements _ w).
  assert (Hpg : length pg = Nat.min B (length rest)) by apply length_firstn.
  assert (Hsplit : rest = pg ++ skipn B rest) by (symmetry; apply firstn_skipn).
  assert (Q0 : page_queries w0 = S (page_queries w)).
  { apply (@page_queries_snoc w c B (page * B)). destruct w; reflexivity. }
  destruct (Nat.eqb (length pg) 0 && Nat.eqb (S page) 1) eqn:Hbreak.
  - apply andb_prop in Hbreak. destruct Hbreak as [H0 _]. apply Nat.eqb_eq in H0.
    assert (Hrest : rest = []) by (apply length_zero_iff_nil; lia).
    exists (set_logs (logs w0 ++ [mkLogEntry LLog OverdueTasksService_name
                                    "No overdue tasks found."]) w0).
    rewrite Hrest. cbn [length]. rewrite Nat.add_0_r.
    split; [reflexivity |].
    rewrite Nat.Div0.div_0_l.
    constructor.
    + destruct w; reflexivity.
    + destruct w; exact Hf.
    + cbn [map]. rewrite app_nil_r. destruct w; reflexivity.
    + change (page_queries w0 = page_queries w + (0 + 1)). lia.
  - unfold bind at 1. unfold logger at 1, modify at 1.
    set (w1 := set_logs _ w0).
    change (fun task : Task => _) with add_overdue.
    destruct (for_each_add_run pg w1) as [q2 [E2 [F2 Hc2]]]; [destruct w; exact Hf |].
    unfold bind at 1. rewrite E2. unfold bind at 1. unfold counter_inc at 1, modify at 1.
    set (w3 := set_metrics _ (set_queue q2 w1)).
    assert (T3 : tasks w3 = tasks w) by (destruct w; reflexivity).
    assert (F3 : faults (queue w3) = []) by (destruct w; exact F2).
    assert (Hc3 : calls (queue w3) = calls (queue w) ++ map was_added pg).
    { replace (calls (queue w3)) with (calls q2) by (destruct w; reflexivity).
      rewrite Hc2. destruct w; reflexivity. }
    assert (Q3 : page_queries w3 = S (page_queries w)).
    { rewrite <- Q0. destruct w; reflexivity. }
    destruct (Nat.eqb (length pg) B) eqn:Hmore.
    + apply Nat.eqb_eq in Hmore.
      assert (HBle : B <= length rest) by lia.
      assert (Hnext : skipn (S page * B) (filter (overdue c) (tasks w3)) = skipn B rest).
      { rewrite T3. unfold rest. rewrite skipn_skipn. reflexivity. }
      assert (Hlen : length (skipn B rest) = length rest - B) by apply length_skipn.
      assert (Hdiv := div_step HB HBle).
      destruct (IH (S page) (total + length pg) w3 F3) as [w' [E' O']].
      { rewrite Hnext, Hlen. lia. }
      rewrite Hnext in E', O'. destruct O' as [T' F' Hc' Q'].
      exists w'. split.
      * rewrite E'. f_equal. f_equal. rewrite Hlen. lia.
      * constructor.
        -- congruence.
        -- exact F'.
        -- rewrite Hc', Hc3, <- app_assoc, <- map_app, <- Hsplit. reflexivity.
        -- rewrite Q', Q3, Hlen, Hdiv. lia.
    + apply Nat.eqb_neq in Hmore.
      assert (Hlt : length rest < B) by lia.
      assert (Hall : pg = rest) by (apply firstn_all2; lia).
      exists w3. split.
      * unfold ret. rewrite Hall. reflexivity.
      * rewrite Nat.div_small by exact Hlt.
        constructor; try assumption.
        -- rewrite Hc3, Hall. reflexivity.
        -- rewrite Q3. lia.
Qed.

Lemma scan_pages_total :
  forall fuel page total w,
    length (skipn (page * B) (filter (overdue c) (tasks w))) / B < fuel ->
    exists r w',
      scan_pages fuel c B page total w = (r, w') /\
      r <> Timeout /\
      tasks w' = tasks w /\
      page_queries w' <=
      page_queries w + length (skipn (page * B) (filter (overdue c) (tasks w))) / B + 1.
Proof.
  induction fuel as [| fuel IH]; intros page total w Hfuel; [lia |].
  cbn [scan_pages]. unfold bind at 1. rewrite repo_find_overdue_run.
  set (rest := skipn (page * B) (filter (overdue c) (tasks w))) in *.
  set (pg := firstn B rest). set (w0 := set_statements _ w).
  assert (Hpg : length pg = Nat.min B (length rest)) by apply length_firstn.
  assert (Q0 : page_queries w0 = S (page_queries w)).
  { apply (@page_queries_snoc w c B (page * B)). destruct w; reflexivity. }
  destruct (Nat.eqb (length pg) 0 && Nat.eqb (S page) 1).
  - do 2 eexists. split; [reflexivity |]. split; [discriminate |].
    split; [destruct w; reflexivity |].
    change (page_queries w0 <= page_queries w + length rest / B + 1). lia.
  - unfold bind at 1. unfold logger at 1, modify at 1. set (w1 := set_logs _ w0).
    change (fun task : Task => _) with add_overdue.
    destruct (for_each_add_total pg w1) as [r2 [q2 [E2 N2]]].
    unfold bind at 1. rewrite E2.
    assert (T2 : tasks (set_queue q2 w1) = tasks w) by (destruct w; reflexivity).
    assert (Q2 : page_queries (set_queue q2 w1) = S (page_queries w)).
    { rewrite <- Q0. destruct w; reflexivity. }
    destruct r2 as [[] | e |]; [| | now elim N2].
    + unfold bind at 1. unfold counter_inc at 1, modify at 1.
      set (w3 := set_metrics _ (set_queue q2 w1)).
      assert (T3 : tasks w3 = tasks w) by (destruct w; reflexivity).
      assert (Q3 : page_queries w3 = S (page_queries w)).
      { rewrite <- Q0. destruct w; reflexivity. }
      destruct (Nat.eqb (length pg) B) eqn:Hmore.
      * apply Nat.eqb_eq in Hmore.
        assert (HBle : B <= length rest) by lia.
        assert (Hnext : skipn (S page * B) (filter (overdue c) (tasks w3)) = skipn B rest).
        { rewrite T3. unfold rest. rewrite skipn_skipn. reflexivity. }
        assert (Hlen : length (skipn B rest) = length rest - B) by apply length_skipn.
        assert (Hdiv := div_step HB HBle).
        destruct (IH (S page) (total + length pg) w3) as [r [w' [E' [N' [T' Q']]]]].
        { rewrite Hnext, Hlen. lia. }
        rewrite Hnext, Hlen in Q'.
        exists r, w'. split; [exact E' |]. split; [exact N' |].
        split; [congruence | lia].
      * do 2 eexists. split; [reflexivity |]. split; [discriminate |].
        split; [exact T3 | lia].
    + do 2 eexists. split; [reflexivity |]. split; [discriminate |].
      split; [exact T2 | lia].
Qed.

End ScanLoop.

Lemma NoDup_map_injective {A B} (f : A -> B) (l : list A) :
  (forall x y, f x = f y -> x = y) -> NoDup l -> NoDup (map f l).
Proof.
  intros Hinj ND. induction ND as [| x l Hx ND IH]; simpl; constructor; [| exact IH].
  intros H. apply in_map_iff in H. destruct H as [y [E Hy]].
  apply Hinj in E. now subst.
Qed.

Lemma overdue_key_injective (a b : string) :
  "overdue-" +++ a = "overdue-" +++ b -> a = b.
Proof. simpl. intros E. now injection E. Qed.

Lemma pages_vs_ceiling (n : nat) :
  n / batchSize_scan + 1 =
  ceil_div n batchSize_scan + (if Nat.eqb (n mod batchSize_scan) 0 then 1 else 0).
Proof.
  unfold ceil_div, batchSize_scan.
  assert (E := Nat.div_mod_eq n 500).
  assert (U := Nat.mod_upper_bound n 500 ltac:(discriminate)).
  generalize dependent (n mod 500). generalize dependent (n / 500). intros q r E U.
  destruct (Nat.eqb r 0) eqn:M.
  - apply Nat.eqb_eq in M. subst r.
    rewrite <- (Nat.div_unique (n + 500 - 1) 500 q 499); lia.
  - apply Nat.eqb_neq in M.
    rewrite <- (Nat.div_unique (n + 500 - 1) 500 (q + 1) (r - 1)); lia.
Qed.

(** C6, as stated, fails when the batch size divides the number of
    overdue tasks: the last full page does not end the loop, one more
    (empty) page is read.  With 500 overdue tasks the run issues two page
    queries, not ceil(500/500) = 1. *)
Lemma C6_full_page_costs_one_more_query :
  let w := world_of (many_due 500) empty_queue in
  let out := checkOverdueTasks 10 w in
  length (filter (overdue (scan_cutoff w)) (tasks w)) = 500 /\
  fst out = Ok tt /\
  page_queries (snd out) = 2 /\
  ceil_div 500 batchSize_scan = 1.
Proof. vm_compute. repeat split. Qed.

(** C6 (amended): when the queue takes every job, a run of the scan over
    N overdue tasks terminates, issues N / 500 + 1 page queries (that is
    ceil(N/500), and one more when 500 divides N), and calls the queue
    once for each overdue task, in table order, with a
    process-overdue-task job under the key overdue-<taskId>; the keys of
    one run are pairwise distinct and no row is changed. *)
Theorem C6_scan_pages_and_enqueues (w : World) (extra : nat) :
  faults (queue w) = [] ->
  let due := filter (overdue (scan_cutoff w)) (tasks w) in
  let N := length due in
  let out := checkOverdueTasks (N / batchSize_scan + 1 + extra) w in
  fst out = Ok tt /\
  page_queries (snd out) = page_queries w + (N / batchSize_scan + 1) /\
  N / batchSize_scan + 1 =
  ceil_div N batchSize_scan + (if Nat.eqb (N mod batchSize_scan) 0 then 1 else 0) /\
  calls (queue (snd out)) =
  calls (queue w) ++
  map (fun t => CallAdd (mkJobRequest "process-overdue-task"
                           (mkJobData (Some (id t)) None None)
                           (mkJobsOptions None None None None
                              (Some ("overdue-" +++ id t))))
                        false) due /\
  (NoDup (map id (tasks w)) -> NoDup (map (fun t => "overdue-" +++ id t) due)) /\
  tasks (snd out) = tasks w.
Proof.
  intros Hf due N out.
  set (w1 := set_logs (logs w ++ [mkLogEntry LDebug OverdueTasksService_name
                                    "Starting overdue tasks check..."]) w).
  assert (F1 : faults (queue w1) = []) by (destruct w; exact Hf).
  destruct (@scan_pages_run (scan_cutoff w) batchSize_scan ltac:(unfold batchSize_scan; lia)
              (N / batchSize_scan + 1 + extra) 0 0 w1 F1) as [w' [E O]].
  { replace (tasks w1) with (tasks w) by (destruct w; reflexivity).
    cbn [Nat.mul skipn]. fold due. fold N.
    generalize (N / batchSize_scan). intros d. lia. }
  replace (tasks w1) with (tasks w) in E, O by (destruct w; reflexivity).
  cbn [Nat.mul skipn] in E, O. fold due in E, O. fold N in E, O.
  destruct O as [T F K Q].
  assert (Eout : out =
                 (Ok tt,
                  set_logs (logs w' ++
                            [mkLogEntry LLog OverdueTasksService_name
                               ("Overdue tasks check completed. Total queued: "
                                  +++ string_of_nat (0 + N))]) w')).
  { unfold out, checkOverdueTasks.
    unfold bind at 1. unfold logger at 1, modify at 1. fold w1.
    unfold bind at 1. unfold new_Date at 1.
    unfold bind at 1. unfold config_get_OVERDUE_TASK_TTL_HOURS at 1.
    replace (now w1) with (now w) by (destruct w; reflexivity).
    replace (OVERDUE_TASK_TTL_HOURS w1) with (OVERDUE_TASK_TTL_HOURS w)
      by (destruct w; reflexivity).
    fold (scan_cutoff w). unfold try_catch, bind. rewrite E. reflexivity. }
  rewrite Eout. cbn [fst snd].
  split; [reflexivity |].
  split.
  { replace (page_queries (set_logs _ w')) with (page_queries w') by (destruct w'; reflexivity).
    rewrite Q. destruct w; reflexivity. }
  split.
  { apply pages_vs_ceiling. }
  split.
  { replace (calls (queue (set_logs _ w'))) with (calls (queue w')) by (destruct w'; reflexivity).
    rewrite K. destruct w; reflexivity. }
  split.
  { intros ND. rewrite <- (map_map id (fun i => "overdue-" +++ i)).
    apply NoDup_map_injective; [apply overdue_key_injective |].
    now apply NoDup_ids_filter. }
  replace (tasks (set_logs _ w')) with (tasks w') by (destruct w'; reflexivity).
  rewrite T. destruct w; reflexivity.
Qed.

Lemma C6_witness :
  page_queries (snd (checkOverdueTasks 3 (world_of (many_due 3) empty_queue))) = 1.
Proof.
  apply (@C6_scan_pages_and_enqueues (world_of (many_due 3) empty_queue) 2 eq_refl).
Defined.

(** A run of the scan ends and answers normally whatever the queue does:
    an enqueue that throws ends the loop and is logged; no row is changed
    and at most N / 500 + 1 pages are read. *)
Theorem checkOverdueTasks_terminates (w : World) (extra : nat) :
  let N := length (filter (overdue (scan_cutoff w)) (tasks w)) in
  let out := checkOverdueTasks (N / batchSize_scan + 1 + extra) w in
  fst out = Ok tt /\
  tasks (snd out) = tasks w /\
  page_queries (snd out) <= page_queries w + N / batchSize_scan + 1.
Proof.
  intros N out.
  set (w1 := set_logs (logs w ++ [mkLogEntry LDebug OverdueTasksService_name
                                    "Starting overdue tasks check..."]) w).
  destruct (@scan_pages_total (scan_cutoff w) batchSize_scan
              ltac:(unfold batchSize_scan; lia)
              (N / batchSize_scan + 1 + extra) 0 0 w1) as [r [w' [E [NT [T Q]]]]].
  { replace (tasks w1) with (tasks w) by (destruct w; reflexivity).
    cbn [Nat.mul skipn]. fold N. generalize (N / batchSize_scan). intros d. lia. }
  replace (tasks w1) with (tasks w) in T, Q by (destruct w; reflexivity).
  cbn [Nat.mul skipn] in Q. fold N in Q.
  replace (page_queries w1) with (page_queries w) in Q by (destruct w; reflexivity).
  assert (Eout : exists entry, out = (Ok tt, set_logs (logs w' ++ [entry]) w')).
  { unfold out, checkOverdueTasks.
    unfold bind at 1. unfold logger at 1, modify at 1. fold w1.
    unfold bind at 1. unfold new_Date at 1.
    unfold bind at 1. unfold config_get_OVERDUE_TASK_TTL_HOURS at 1.
    replace (now w1) with (now w) by (destruct w; reflexivity).
    replace (OVERDUE_TASK_TTL_HOURS w1) with (OVERDUE_TASK_TTL_HOURS w)
      by (destruct w; reflexivity).
    fold (scan_cutoff w). unfold try_catch, bind. rewrite E.
    destruct r as [total | e |]; [| | now elim NT]; eexists; reflexivity. }
  destruct Eout as [entry Eout]. rewrite Eout. cbn [fst snd].
  split; [reflexivity |].
  replace (tasks (set_logs _ w')) with (tasks w') by (destruct w'; reflexivity).
  replace (page_queries (set_logs _ w')) with (page_queries w')
    by (destruct w'; reflexivity).
  split; [exact T | exact Q].
Qed.

(* ----------------------------------------------------------------- *)
(** *** From the scan to the worker (C7) *)

Lemma process_unknown_type (fuel : nat) (job : Job) (w : World) :
  String.eqb (name job) "task-status-update" = false ->
  String.eqb (name job) "overdue-tasks-notification" = false ->
  fst (process fuel job w) = Throw (Error ("Unknown job type: " +++ name job)).
Proof.
  intros H1 H2. unfold process, try_catch, bind, logger, modify, throw, counter_inc.
  rewrite H1, H2. reflexivity.
Qed.

(** C7 fails on the code.  One pending task that is due: the scan puts one
    process-overdue-task job under the key overdue-A on the queue, and the
    worker, which dispatches on task-status-update and
    overdue-tasks-notification only, throws on it with whatever fuel and
    counts it as an error.  A job named overdue-tasks-notification is the
    one that is processed with count 1. *)
Theorem C7_worker_rejects_scanner_job :
  let w := world_of [taskA] empty_queue in
  let scanned := snd (checkOverdueTasks 2 w) in
  map job_summary (jobs (queue scanned)) =
  [("process-overdue-task", mkJobData (Some "A") None None, Some "overdue-A")] /\
  map job_id (jobs (queue scanned)) = ["overdue-A"] /\
  (forall fuel job,
      In job (jobs (queue scanned)) ->
      fst (process fuel job scanned) =
      Throw (Error "Unknown job type: process-overdue-task") /\
      metrics (snd (process fuel job scanned)) =
      metrics scanned ++ [jobs_processed_total "process-overdue-task" "error"]) /\
  fst (process 2 (mkJob "7" "overdue-tasks-notification" (mkJobData None None None)
                        no_options 0) scanned) = Ok (ReturnCount 1).
Proof.
  cbv zeta. split; [vm_compute; reflexivity |]. split; [vm_compute; reflexivity |].
  split; [| vm_compute; reflexivity].
  intros fuel job Hin.
  assert (E : job = mkJob "overdue-A" "process-overdue-task"
                          (mkJobData (Some "A") None None)
                          (mkJobsOptions None None None None (Some "overdue-A")) 0).
  { vm_compute in Hin. destruct Hin as [<- | []]. reflexivity. }
  subst job. split.
  - apply process_unknown_type; reflexivity.
  - unfold process, try_catch, bind, logger, modify, throw, counter_inc.
    cbn [name String.eqb Ascii.eqb Bool.eqb fst snd]. reflexivity.
Qed.

(* ----------------------------------------------------------------- *)
(** *** A paginated scan of two due rows (C9, example) *)

Lemma C9_witness :
  none_falls_due (fun k => (100 + Z.of_nat k)%Z) 2 (many_due 2) /\
  flat_map (fun k => page_at 1 k (100 + Z.of_nat k)%Z (world_of (many_due 2) empty_queue))
           (seq 0 2) = many_due 2.
Proof.
  assert (H : none_falls_due (fun k => (100 + Z.of_nat k)%Z) 2 (many_due 2)).
  { intros k row Hk Hrow.
    assert (E : k = 0 \/ k = 1) by lia.
    destruct E as [-> | ->]; [reflexivity |].
    destruct Hrow as [<- | [<- | []]]; reflexivity. }
  split; [exact H |].
  destruct (C9_findOverdueTasks_pages (world_of (many_due 2) empty_queue) 1)
    as [_ [_ [_ Hpages]]].
  destruct (Hpages (fun k => (100 + Z.of_nat k)%Z) 2 eq_refl H) as [_ Hall].
  apply Hall. vm_compute. lia.
Defined.

(* ================================================================= *)
(** ** Further properties of the services *)

(* ----------------------------------------------------------------- *)
(** *** Lookup and deletion *)

Lemma findOneOrFail_fst (i : string) (w : World) :
  fst (findOneOrFail i w) =
  match find (has_id i) (tasks w) with
  | Some t => Ok t
  | None => Throw (NotFoundException "Task not found")
  end.
Proof.
  open_world w. destruct (find (has_id i) ts); reflexivity.
Qed.

Lemma findOneOrFail_tasks (i : string) (w : World) :
  tasks (snd (findOneOrFail i w)) = tasks w.
Proof.
  open_world w. destruct (find (has_id i) ts); reflexivity.
Qed.

Lemma Set_has_one (i j : string) : Set_has [i] j = String.eqb j i.
Proof. unfold Set_has. simpl. apply orb_false_r. Qed.

Lemma filter_ext_eq {A} (p q : A -> bool) (l : list A) :
  (forall x, p x = q x) -> filter p l = filter q l.
Proof. intros H. apply filter_ext. exact H. Qed.

Lemma no_match_no_row {A} (p : A -> bool) (l : list A) :
  Nat.eqb (length (filter p l)) 0 = negb (existsb p l).
Proof.
  induction l as [| x l IH]; [reflexivity |].
  simpl. destruct (p x); [reflexivity | exact IH].
Qed.

Lemma remove_fst (i : string) (w : World) :
  fst (remove i w) =
  if existsb (has_id i) (tasks w) then Ok tt
  else Throw (NotFoundException "Task not found").
Proof.
  unfold remove. open_world w.
  rewrite (filter_ext_eq (fun t => Set_has [i] (id t)) (has_id i))
    by (intros x; apply Set_has_one).
  rewrite no_match_no_row. destruct (existsb (has_id i) ts); reflexivity.
Qed.

Lemma remove_tasks (i : string) (w : World) :
  tasks (snd (remove i w)) = without i (tasks w).
Proof.
  unfold remove, without. open_world w.
  match goal with
  | |- context [Nat.eqb ?n 0] => destruct (Nat.eqb n 0)
  end; fields; apply filter_ext_eq; intros x; now rewrite Set_has_one.
Qed.

Lemma remove_queue (i : string) (w : World) :
  queue (snd (remove i w)) = queue w.
Proof.
  unfold remove. open_world w.
  match goal with
  | |- context [Nat.eqb ?n 0] => destruct (Nat.eqb n 0)
  end; reflexivity.
Qed.

Lemma find_without (i : string) (rows : list Task) :
  find (has_id i) (without i rows) = None.
Proof.
  unfold without. induction rows as [| r rows IH]; [reflexivity |].
  simpl. destruct (has_id i r) eqn:E; simpl; [exact IH |]. now rewrite E.
Qed.

Lemma existsb_find_none {A} (p : A -> bool) (l : list A) :
  find p l = None -> existsb p l = false.
Proof.
  induction l as [| x l IH]; simpl; [reflexivity |].
  destruct (p x); [discriminate | exact IH].
Qed.

Lemma existsb_has_id (i : string) (rows : list Task) :
  existsb (has_id i) rows = true <-> In i (map id rows).
Proof.
  rewrite existsb_exists, in_map_iff. unfold has_id.
  split; intros [t [H1 H2]]; exists t.
  - apply String.eqb_eq in H2. now split.
  - split; [exact H2 | now apply String.eqb_eq].
Qed.

(** [remove] succeeds exactly on an id that is in the store and fails with
    NotFound otherwise; in both cases the rows left are those with another
    id, each as often as before and in their order, and nothing is handed
    to the queue. *)
Theorem remove_outcome (i : string) (w : World) :
  (fst (remove i w) = Ok tt <-> In i (map id (tasks w))) /\
  (fst (remove i w) = Throw (NotFoundException "Task not found") <->
   ~ In i (map id (tasks w))) /\
  ~ In i (map id (tasks (snd (remove i w)))) /\
  (forall r, id r <> i -> (In r (tasks (snd (remove i w))) <-> In r (tasks w))) /\
  tasks (snd (remove i w)) = filter (fun r => negb (String.eqb (id r) i)) (tasks w) /\
  queue (snd (remove i w)) = queue w.
Proof.
  rewrite remove_fst, remove_tasks, remove_queue, <- existsb_has_id.
  destruct (existsb (has_id i) (tasks w)) eqn:E.
  - split; [tauto |]. split; [split; [discriminate | congruence] |].
    split; [| split; [| split; reflexivity]].
    + rewrite <- existsb_has_id. now rewrite (existsb_find_none _ _ (find_without i (tasks w))).
    + intros r Hr. unfold without. rewrite filter_In. unfold has_id.
      apply String.eqb_neq in Hr. rewrite Hr. simpl. tauto.
  - split; [split; [discriminate | congruence] |]. split; [split; congruence |].
    split; [| split; [| split; reflexivity]].
    + rewrite <- existsb_has_id. now rewrite (existsb_find_none _ _ (find_without i (tasks w))).
    + intros r Hr. unfold without. rewrite filter_In. unfold has_id.
      apply String.eqb_neq in Hr. rewrite Hr. simpl. tauto.
Qed.

(** Once [remove] has run on an id, a lookup of that id and a second
    [remove] both fail with NotFound, whether or not the first succeeded. *)
Theorem remove_then_gone (i : string) (w : World) :
  fst (findOneOrFail i (snd (remove i w))) = Throw (NotFoundException "Task not found") /\
  fst (remove i (snd (remove i w))) = Throw (NotFoundException "Task not found").
Proof.
  rewrite findOneOrFail_fst, remove_fst, remove_tasks, find_without.
  now rewrite (existsb_find_none _ _ (find_without i (tasks w))).
Qed.

Lemma find_app_fresh (i : string) (rows : list Task) (row : Task) :
  ~ In i (map id rows) -> id row = i -> find (has_id i) (rows ++ [row]) = Some row.
Proof.
  intros Hfresh Hid. induction rows as [| r rows IH]; simpl.
  - unfold has_id. rewrite Hid, String.eqb_refl. reflexivity.
  - simpl in Hfresh. destruct (has_id i r) eqn:E.
    + apply String.eqb_eq in E. tauto.
    + apply IH. tauto.
Qed.

Lemma without_app_fresh (i : string) (rows : list Task) (row : Task) :
  ~ In i (map id rows) -> id row = i -> without i (rows ++ [row]) = rows.
Proof.
  intros Hfresh Hid. unfold without. rewrite filter_app. simpl.
  unfold has_id at 2. rewrite Hid, String.eqb_refl. simpl. rewrite app_nil_r.
  induction rows as [| r rows IH]; [reflexivity |].
  simpl in *. destruct (has_id i r) eqn:E.
  - apply String.eqb_eq in E. tauto.
  - simpl. f_equal. apply IH. tauto.
Qed.

(** When the id the database hands out is new to the table, the task that
    [create] answers is the one [findOneOrFail] finds under its id, and
    removing it gives back the rows there were before, whatever the state
    of the queue. *)
Theorem create_then_find_then_remove (dto : CreateTaskDto) (w : World) :
  ~ In (uuid w (serial w)) (map id (tasks w)) ->
  exists saved,
    fst (create dto w) = Ok saved /\
    fst (findOneOrFail (id saved) (snd (create dto w))) = Ok saved /\
    fst (remove (id saved) (snd (create dto w))) = Ok tt /\
    tasks (snd (remove (id saved) (snd (create dto w)))) = tasks w.
Proof.
  intros Hfresh. exists (saved_row dto w).
  assert (Hid : id (saved_row dto w) = uuid w (serial w)) by reflexivity.
  rewrite create_fst, findOneOrFail_fst, remove_fst, remove_tasks, create_tasks.
  rewrite Hid, (find_app_fresh _ _ Hfresh Hid), (without_app_fresh _ _ Hfresh Hid).
  repeat split.
  replace (existsb _ _) with true; [reflexivity |].
  symmetry. apply existsb_has_id. rewrite map_app, in_app_iff. right. now left.
Qed.

Lemma create_then_find_then_remove_witness :
  exists saved,
    fst (create (mkCreateTaskDto "water plants" None None None None "u1") world_AB) = Ok saved /\
    tasks (snd (remove (id saved)
                 (snd (create (mkCreateTaskDto "water plants" None None None None "u1")
                              world_AB)))) = [taskA; taskB].
Proof.
  destruct (@create_then_find_then_remove
              (mkCreateTaskDto "water plants" None None None None "u1") world_AB)
    as [saved [H1 [_ [_ H4]]]].
  - simpl. intuition discriminate.
  - exists saved. split; [exact H1 | exact H4].
Defined.

(* ----------------------------------------------------------------- *)
(** *** Updates of a missing task, and [updateStatus] *)

Lemma find_none_iff (i : string) (rows : list Task) :
  find (has_id i) rows = None <-> ~ In i (map id rows).
Proof.
  rewrite <- existsb_has_id. split.
  - intros F. now rewrite (existsb_find_none _ _ F).
  - intros H. destruct (find (has_id i) rows) as [t |] eqn:F; [| reflexivity].
    elim H. apply find_some in F. apply existsb_exists. now exists t.
Qed.

(** [update] of an id that is not in the store fails with NotFound: the
    transaction is rolled back after the lookup, no row changes, nothing
    is handed to the queue and nothing is logged. *)
Theorem update_missing_task (i : string) (dto : UpdateTaskDto) (w : World) :
  ~ In i (map id (tasks w)) ->
  fst (update i dto w) = Throw (NotFoundException "Task not found") /\
  tasks (snd (update i dto w)) = tasks w /\
  queue (snd (update i dto w)) = queue w /\
  logs (snd (update i dto w)) = logs w /\
  statements (snd (update i dto w)) = statements w ++ [Begin; SelectIdStatus i; Rollback].
Proof.
  intros H. apply find_none_iff in H. destruct w as [ts ss q0 ls ms nw uu sr cfg].
  cbn [tasks] in H. run. rewrite H. fields. cbn [option_map].
  repeat split. now rewrite <- !app_assoc.
Qed.

Lemma update_missing_task_witness :
  fst (update "Z" (set_status_dto COMPLETED) world_AB) =
  Throw (NotFoundException "Task not found").
Proof.
  apply (@update_missing_task "Z" (set_status_dto COMPLETED) world_AB).
  simpl. intuition discriminate.
Defined.

Lemma option_eqb_refl {A} (eqb : A -> A -> bool) (x : option A) :
  (forall a, eqb a a = true) -> option_eqb eqb x x = true.
Proof. intros H. destruct x; simpl; auto. Qed.

(** An entity that differs from its stored row in the status only is equal
    to it exactly when the status is the stored one. *)
Lemma Task_eqb_set_status (s : string) (row : Task) :
  Task_eqb row (set_status s row) = String.eqb (status row) s.
Proof.
  unfold Task_eqb. cbn [id title description status priority dueDate userId createdAt
                        updatedAt set_status].
  rewrite !String.eqb_refl, !Z.eqb_refl.
  rewrite (option_eqb_refl _ _ String.eqb_refl), (option_eqb_refl _ _ Z.eqb_refl).
  cbn [andb]. now rewrite !andb_true_r.
Qed.

Lemma set_status_same (row : Task) : set_status (status row) row = row.
Proof. destruct row; reflexivity. Qed.

Lemma updateStatus_run (i s : string) (w : World) :
  updateStatus i s w =
  match find (has_id i) (tasks w) with
  | None =>
      (Throw (NotFoundException "Task not found"),
       set_statements (statements w ++ [SelectOne i]) w)
  | Some before =>
      if String.eqb (status before) s then
        (Ok before, set_statements (statements w ++ [SelectOne i; SelectOne i]) w)
      else
        (Ok (touch (now w) (set_status s before)),
         set_tasks (save_rows (set_status s before) (now w) (tasks w))
           (set_statements
              (statements w ++ [SelectOne i; SelectOne i; SaveTask (set_status s before)])
              w))
  end.
Proof.
  unfold updateStatus, repo_save, save_rows. open_world w.
  destruct (find (has_id i) ts) as [before |] eqn:F; fields; [| reflexivity].
  destruct (find_has_id _ _ F) as [_ Hid].
  cbn [id set_status]. rewrite Hid, F.
  change (mkTask (id before) (title before) (description before) s (priority before)
                 (dueDate before) (userId before) (createdAt before) (updatedAt before))
    with (set_status s before).
  rewrite Task_eqb_set_status.
  destruct (String.eqb (status before) s) eqn:E; fields.
  - apply String.eqb_eq in E. subst s. rewrite set_status_same.
    now rewrite <- !app_assoc.
  - now rewrite <- !app_assoc.
Qed.

Lemma find_save_rows (i : string) (entity : Task) (t : Timestamp) (rows : list Task) :
  id entity = i ->
  find (has_id i) (save_rows entity t rows) =
  option_map (fun _ => touch t entity) (find (has_id i) rows).
Proof.
  intros Hid. unfold save_rows. rewrite Hid.
  induction rows as [| r rows IH]; simpl; [reflexivity |].
  destruct (has_id i r) eqn:E.
  - unfold has_id. cbn [id touch]. rewrite Hid, String.eqb_refl. reflexivity.
  - rewrite E. exact IH.
Qed.

(** [updateStatus], the effect of a status-update job, stores whatever
    string it is given as the status of an existing task and hands nothing
    to the queue (so the job does not feed itself).  When the status
    differs from the stored one, [updatedAt] is refreshed and every other
    field and row is kept; when it is the stored one, no row is written
    and [updatedAt] stays as it was. *)
Theorem updateStatus_existing (i s : string) (w : World) (before : Task) :
  find (has_id i) (tasks w) = Some before ->
  exists saved,
    fst (updateStatus i s w) = Ok saved /\
    find (has_id i) (tasks (snd (updateStatus i s w))) = Some saved /\
    status saved = s /\
    updatedAt saved = (if String.eqb (status before) s then updatedAt before else now w) /\
    set_status (status before) (touch (updatedAt before) saved) = before /\
    (forall r, In r (tasks w) -> id r <> i -> In r (tasks (snd (updateStatus i s w)))) /\
    (status before = s ->
     saved = before /\ tasks (snd (updateStatus i s w)) = tasks w /\
     Forall (fun q => is_write q = false)
            (skipn (length (statements w)) (statements (snd (updateStatus i s w))))) /\
    queue (snd (updateStatus i s w)) = queue w.
Proof.
  intros F. destruct (find_has_id _ _ F) as [_ Hid].
  rewrite updateStatus_run, F.
  destruct (String.eqb (status before) s) eqn:E.
  - apply String.eqb_eq in E. exists before. cbn [fst snd].
    replace (tasks (set_statements _ w)) with (tasks w) by (destruct w; reflexivity).
    replace (queue (set_statements _ w)) with (queue w) by (destruct w; reflexivity).
    replace (statements (set_statements (statements w ++ [SelectOne i; SelectOne i]) w))
      with (statements w ++ [SelectOne i; SelectOne i]) by (destruct w; reflexivity).
    split; [reflexivity |]. split; [exact F |]. split; [exact E |].
    split; [reflexivity |]. split; [destruct before; reflexivity |].
    split; [intros r Hin _; exact Hin |]. split; [| reflexivity].
    intros _. split; [reflexivity |]. split; [reflexivity |].
    rewrite skipn_app, skipn_all, Nat.sub_diag. cbn [skipn app].
    repeat constructor.
  - exists (touch (now w) (set_status s before)). cbn [fst snd].
    replace (tasks (set_tasks _ _)) with (save_rows (set_status s before) (now w) (tasks w))
      by (destruct w; reflexivity).
    rewrite (find_save_rows _ _ _ (i := i)) by exact Hid. rewrite F.
    split; [reflexivity |]. split; [reflexivity |]. split; [reflexivity |].
    split; [reflexivity |]. split; [destruct before; reflexivity |].
    split; [| split; [| destruct w; reflexivity]].
    + intros r Hin Hne. unfold save_rows. apply in_map_iff. exists r.
      split; [| exact Hin]. cbn [id set_status]. rewrite Hid.
      unfold has_id. apply String.eqb_neq in Hne. now rewrite Hne.
    + intros Hs. apply String.eqb_neq in E. contradiction.
Qed.

Lemma updateStatus_existing_witness :
  exists saved,
    fst (updateStatus "A" "archived" world_AB) = Ok saved /\ status saved = "archived".
Proof.
  destruct (@updateStatus_existing "A" "archived" world_AB taskA eq_refl)
    as [saved [H1 [_ [H3 _]]]].
  exists saved. split; [exact H1 | exact H3].
Defined.

(* ----------------------------------------------------------------- *)
(** *** The worker: status-update jobs *)

Ltac open_process w Hname :=
  destruct w as [ts ss q0 ls ms nw uu sr cfg];
  unfold process, try_catch, bind, logger, modify, counter_inc, throw, ret;
  rewrite Hname; cbn [String.eqb Ascii.eqb Bool.eqb];
  cbv beta iota zeta.

(** A status-update job that lacks its task id or its status (absent or
    empty) is answered as a failure value, not thrown: the worker touches
    no row, hands nothing to the queue and counts the job neither as a
    success nor as an error. *)
Theorem worker_reports_missing_data (fuel : nat) (job : Job) (w : World) :
  name job = "task-status-update" ->
  falsy (taskId (data job)) || falsy (j_status (data job)) = true ->
  let out := process fuel job w in
  fst out = Ok (ReturnFailure "Missing required data") /\
  tasks (snd out) = tasks w /\
  statements (snd out) = statements w /\
  queue (snd out) = queue w /\
  metrics (snd out) = metrics w.
Proof.
  intros Hname Hmiss out. unfold out. open_process w Hname.
  unfold handleStatusUpdate. rewrite Hmiss.
  unfold bind, logger, modify, ret. repeat split.
Qed.

Lemma worker_reports_missing_data_witness :
  fst (process 0 (mkJob "5" "task-status-update" (mkJobData (Some "A") (Some "") None)
                        no_options 0) world_AB) =
  Ok (ReturnFailure "Missing required data").
Proof.
  apply (@worker_reports_missing_data 0
           (mkJob "5" "task-status-update" (mkJobData (Some "A") (Some "") None) no_options 0)
           world_AB eq_refl eq_refl).
Defined.

Lemma process_status_update_run (fuel : nat) (job : Job) (i s : string) (w : World) :
  name job = "task-status-update" ->
  data job = status_update_data i s ->
  i <> "" -> s <> "" ->
  let w1 := set_logs (logs w ++
                      [mkLogEntry LDebug TaskProcessorService_name
                         ("Processing job " +++ job_id job +++ " [type=" +++ name job
                            +++ "] attempt=" +++ string_of_nat (attemptsMade job + 1))])
                     w in
  process fuel job w =
  match find (has_id i) (tasks w) with
  | Some before =>
      (Ok (ReturnStatusUpdated i s),
       set_metrics (metrics w ++ [jobs_processed_total "task-status-update" "success"])
         (if String.eqb (status before) s then
            set_statements (statements w ++ [SelectOne i; SelectOne i]) w1
          else
            set_tasks (save_rows (set_status s before) (now w) (tasks w))
              (set_statements
                 (statements w ++ [SelectOne i; SelectOne i; SaveTask (set_status s before)])
                 w1)))
  | None =>
      (Throw (NotFoundException "Task not found"),
       set_metrics (metrics w ++ [jobs_processed_total (name job) "error"])
         (set_logs (logs w1 ++
                    [mkLogEntry LError TaskProcessorService_name
                       ("Job " +++ job_id job +++ " [type=" +++ name job
                          +++ "] failed on attempt " +++ string_of_nat (attemptsMade job + 1)
                          +++ ": " +++ "Task not found")])
                   (set_statements (statements w ++ [SelectOne i]) w1)))
  end.
Proof.
  intros Hname Hdata Hi Hs w1. unfold w1.
  apply String.eqb_neq in Hi, Hs.
  destruct w as [ts ss q0 ls ms nw uu sr cfg].
  destruct job as [key nm d o made]. cbn [name data] in Hname, Hdata. subst nm d.
  unfold process, try_catch. cbn [name data job_id attemptsMade].
  unfold bind at 1. unfold logger at 1, modify at 1.
  cbn [String.eqb Ascii.eqb Bool.eqb]. cbv beta iota zeta.
  unfold handleStatusUpdate, status_update_data, falsy.
  cbn [taskId j_status]. rewrite Hi, Hs. cbn [orb].
  unfold deref. unfold bind at 1. unfold ret at 1. unfold bind at 1. unfold ret at 1.
  unfold bind at 1. rewrite updateStatus_run.
  cbn [tasks set_logs logs statements queue metrics now uuid serial OVERDUE_TASK_TTL_HOURS].
  destruct (find (has_id i) ts) as [before |] eqn:F.
  - destruct (find_has_id _ _ F) as [_ Hid].
    destruct (String.eqb (status before) s) eqn:E;
      unfold bind, counter_inc, modify, ret;
      cbn [id status touch set_status set_metrics
           set_tasks set_statements tasks statements queue logs metrics now uuid serial
           OVERDUE_TASK_TTL_HOURS fst snd];
      rewrite Hid; [| reflexivity].
    apply String.eqb_eq in E. now rewrite E.
  - unfold bind, logger, modify, counter_inc, throw. reflexivity.
Qed.

(** A status-update job with its task id and status present, for a task
    that is in the store: the worker answers the id and the new status,
    one success is counted and nothing is handed to the queue.  The
    stored row gets the status and a refreshed [updatedAt] when the status
    differs from the stored one; when it is the stored one, the row stays
    as it was and no row of the table changes. *)
Theorem worker_applies_status_update
        (fuel : nat) (job : Job) (i s : string) (w : World) (before : Task) :
  name job = "task-status-update" ->
  data job = status_update_data i s ->
  i <> "" -> s <> "" ->
  find (has_id i) (tasks w) = Some before ->
  let out := process fuel job w in
  fst out = Ok (ReturnStatusUpdated i s) /\
  find (has_id i) (tasks (snd out)) =
  Some (if String.eqb (status before) s then before
        else touch (now w) (set_status s before)) /\
  (status before = s -> tasks (snd out) = tasks w) /\
  metrics (snd out) = metrics w ++ [jobs_processed_total "task-status-update" "success"] /\
  queue (snd out) = queue w.
Proof.
  intros Hname Hdata Hi Hs F out. unfold out.
  rewrite (process_status_update_run fuel job w Hname Hdata Hi Hs), F.
  destruct (find_has_id _ _ F) as [_ Hid].
  cbn [fst snd]. split; [reflexivity |].
  destruct (String.eqb (status before) s) eqn:E.
  - replace (tasks (set_metrics _ _)) with (tasks w) by (destruct w; reflexivity).
    split; [exact F |]. split; [reflexivity |]. split; destruct w; reflexivity.
  - replace (tasks (set_metrics _ _)) with (save_rows (set_status s before) (now w) (tasks w))
      by (destruct w; reflexivity).
    rewrite (find_save_rows _ _ _ (i := i)) by exact Hid. rewrite F.
    split; [reflexivity |]. apply String.eqb_neq in E.
    split; [intros Hs'; contradiction |]. split; destruct w; reflexivity.
Qed.

Lemma worker_applies_status_update_witness :
  fst (process 0 (status_update_job "1" "A" COMPLETED) world_AB) =
  Ok (ReturnStatusUpdated "A" COMPLETED).
Proof.
  apply (@worker_applies_status_update 0 (status_update_job "1" "A" COMPLETED)
           "A" COMPLETED world_AB taskA eq_refl eq_refl);
    [discriminate | discriminate | reflexivity].
Defined.

(** A status-update job for a task that is not in the store makes the
    worker throw NotFound (so that the queue retries the job): no row
    changes, the failure is logged and one error is counted for the job
    type. *)
Theorem worker_throws_on_unknown_task
        (fuel : nat) (job : Job) (i s : string) (w : World) :
  name job = "task-status-update" ->
  data job = status_update_data i s ->
  i <> "" -> s <> "" ->
  ~ In i (map id (tasks w)) ->
  let out := process fuel job w in
  fst out = Throw (NotFoundException "Task not found") /\
  tasks (snd out) = tasks w /\
  metrics (snd out) = metrics w ++ [jobs_processed_total "task-status-update" "error"] /\
  queue (snd out) = queue w /\
  exists entry, In entry (logs (snd out)) /\ level entry = LError.
Proof.
  intros Hname Hdata Hi Hs Hmiss out. unfold out. apply find_none_iff in Hmiss.
  rewrite (process_status_update_run fuel job w Hname Hdata Hi Hs), Hmiss.
  cbn [fst snd]. rewrite Hname.
  split; [reflexivity |]. split; [destruct w; reflexivity |].
  split; [destruct w; reflexivity |]. split; [destruct w; reflexivity |].
  destruct w as [ts ss q0 ls ms nw uu sr cfg].
  cbn [logs set_metrics set_logs set_statements].
  eexists. split; [apply in_or_app; right; left; reflexivity | reflexivity].
Qed.

Lemma worker_throws_on_unknown_task_witness :
  fst (process 0 (status_update_job "1" "Z" COMPLETED) world_AB) =
  Throw (NotFoundException "Task not found").
Proof.
  apply (@worker_throws_on_unknown_task 0 (status_update_job "1" "Z" COMPLETED)
           "Z" COMPLETED world_AB eq_refl eq_refl);
    [discriminate | discriminate | simpl; intuition discriminate].
Defined.

(** The job that a status-changing [update] leaves on a reachable queue is
    one the worker accepts: processed at any later time, it answers the
    same id and status and writes no row, since the task already has the
    status the job carries: the table stays as [update] left it. *)
Theorem update_job_is_replayed_without_effect
        (i s : string) (dto : UpdateTaskDto) (w : World) (before : Task) :
  find (has_id i) (tasks w) = Some before ->
  u_status dto = Some s -> s <> status before ->
  i <> "" -> s <> "" ->
  queue_down (queue w) = false ->
  let after := snd (update i dto w) in
  exists job,
    jobs (queue after) = jobs (queue w) ++ [job] /\
    name job = "task-status-update" /\
    data job = status_update_data i s /\
    forall fuel t,
      fst (process fuel job (set_now t after)) = Ok (ReturnStatusUpdated i s) /\
      tasks (snd (process fuel job (set_now t after))) = tasks after.
Proof.
  intros F Es Hne Hi Hs Hup after.
  destruct (find_has_id _ _ F) as [_ Hid].
  assert (Hch : status_changed dto (project before) = true).
  { apply status_changed_true. exists s. now split. }
  assert (Fafter : find (has_id i) (tasks after) = Some (apply_patch dto (now w) before)).
  { unfold after. rewrite update_tasks, F, find_patch_rows, F. reflexivity. }
  assert (Hst : status (apply_patch dto (now w) before) = s).
  { unfold apply_patch. cbn [status]. now rewrite Es. }
  exists (mkJob (string_of_nat (S (counter (queue w)))) "task-status-update"
                (status_update_data i s) no_options 0).
  split.
  { unfold after. rewrite update_jobs, F, Hch. unfold queue_down in Hup. rewrite Hup.
    cbn [andb negb]. unfold update_request, enqueue.
    cbn [q_opts jobId no_options q_name q_data fst snd id status apply_patch].
    rewrite Es, Hid. reflexivity. }
  split; [reflexivity |]. split; [reflexivity |].
  intros fuel t.
  rewrite (@process_status_update_run fuel
             (mkJob (string_of_nat (S (counter (queue w)))) "task-status-update"
                    (status_update_data i s) no_options 0)
             i s (set_now t after) eq_refl eq_refl Hi Hs).
  replace (tasks (set_now t after)) with (tasks after) by (destruct after; reflexivity).
  rewrite Fafter, Hst, String.eqb_refl. cbn [fst snd].
  split; [reflexivity | destruct after; reflexivity].
Qed.

Lemma update_job_is_replayed_without_effect_witness :
  exists job,
    jobs (queue (snd (update "A" (set_status_dto IN_PROGRESS) world_AB))) = [job] /\
    fst (process 0 job (set_now 500%Z (snd (update "A" (set_status_dto IN_PROGRESS) world_AB))))
    = Ok (ReturnStatusUpdated "A" IN_PROGRESS).
Proof.
  destruct (@update_job_is_replayed_without_effect "A" IN_PROGRESS
              (set_status_dto IN_PROGRESS) world_AB taskA eq_refl eq_refl)
    as [job [H1 [_ [_ H4]]]]; try discriminate; try reflexivity.
  exists job. split; [exact H1 | apply (H4 0 500%Z)].
Defined.

(* ----------------------------------------------------------------- *)
(** *** Batches: when they succeed, what they report, what they leave *)

(** [batchProcess] answers a report exactly when the action is complete
    or delete and one of the ids is in the store.  An empty id list is
    rejected first, with a BadRequestException; a non-empty list with
    another action is rejected with a BadRequestException naming the
    action; complete or delete of ids none of which is stored fails with
    the QueryFailedError of the rejected statement and leaves the rows as
    they were.  A report repeats the action and counts the ids it was
    given. *)
Theorem batch_succeeds_iff (dto : BatchProcessDto) (w : World) :
  ((exists r, fst (batchProcess dto w) = Ok r) <->
   (b_action dto = COMPLETE \/ b_action dto = DELETE) /\
   some_exists (b_tasks dto) (tasks w)) /\
  (b_tasks dto = [] ->
   fst (batchProcess dto w) = Throw (BadRequestException "No task IDs provided")) /\
  (b_tasks dto <> [] -> b_action dto <> COMPLETE -> b_action dto <> DELETE ->
   fst (batchProcess dto w) =
   Throw (BadRequestException ("Unknown action: " +++ b_action dto))) /\
  (b_tasks dto <> [] -> b_action dto = COMPLETE \/ b_action dto = DELETE ->
   ~ some_exists (b_tasks dto) (tasks w) ->
   fst (batchProcess dto w) = Throw (QueryFailedError "syntax error at or near )") /\
   tasks (snd (batchProcess dto w)) = tasks w) /\
  (forall r, fst (batchProcess dto w) = Ok r ->
             r_action r = b_action dto /\ r_requested r = length (b_tasks dto)).
Proof.
  pose proof (existing_ids_nil (b_tasks dto) (tasks w)) as Hnil.
  rewrite batch_fst, batch_tasks. unfold batch_answer, batch_rows, empty_in_list.
  destruct (b_tasks dto) as [| i0 ids'] eqn:Eids.
  - split; [split; [intros [r H]; discriminate | intros [_ [i [[] _]]]] |].
    split; [reflexivity |]. split; [congruence |]. split; [congruence | discriminate].
  - cbv zeta. destruct (existing_ids (i0 :: ids') (tasks w)) as [| f0 fs0] eqn:EF.
    + assert (Hno : ~ some_exists (i0 :: ids') (tasks w)) by now apply Hnil.
      split; [split; [| tauto] |].
      { intros [r H]. destruct (String.eqb (b_action dto) COMPLETE); [discriminate |].
        destruct (String.eqb (b_action dto) DELETE); discriminate. }
      split; [discriminate |].
      split.
      { intros _ NC ND. apply String.eqb_neq in NC, ND. now rewrite NC, ND. }
      split.
      { intros _ [-> | ->] _.
        - rewrite String.eqb_refl. split; [reflexivity | apply no_id_completes].
        - replace (String.eqb DELETE COMPLETE) with false by reflexivity.
          rewrite String.eqb_refl. split; [reflexivity | apply no_id_deletes]. }
      intros r H. destruct (String.eqb (b_action dto) COMPLETE); [discriminate |].
      destruct (String.eqb (b_action dto) DELETE); discriminate.
    + assert (Hex : some_exists (i0 :: ids') (tasks w)).
      { destruct (some_exists_dec (i0 :: ids') (tasks w)) as [H | H]; [exact H |].
        apply Hnil in H. discriminate. }
      destruct (String.eqb (b_action dto) COMPLETE) eqn:EC;
        [| destruct (String.eqb (b_action dto) DELETE) eqn:ED].
      * apply String.eqb_eq in EC.
        split; [split; [intros _; tauto | intros _; eexists; reflexivity] |].
        split; [discriminate |]. split; [intros _ NC; contradiction |].
        split; [intros _ _ H; contradiction |].
        intros r H. injection H as <-. split; reflexivity.
      * apply String.eqb_eq in ED.
        split; [split; [intros _; tauto | intros _; eexists; reflexivity] |].
        split; [discriminate |]. split; [intros _ _ ND; contradiction |].
        split; [intros _ _ H; contradiction |].
        intros r H. injection H as <-. split; reflexivity.
      * apply String.eqb_neq in EC, ED.
        split; [split; [intros [r H]; discriminate | intros [[H | H] _]; congruence] |].
        split; [discriminate |]. split; [reflexivity |].
        split; [intros _ _ H; contradiction | discriminate].
Qed.

Lemma count_map {A B} (p : B -> bool) (f : A -> B) (l : list A) :
  count p (map f l) = count (fun x => p (f x)) l.
Proof.
  unfold count. induction l as [| x l IH]; [reflexivity |].
  simpl. destruct (p (f x)); simpl; now rewrite IH.
Qed.

Lemma count_ext {A} (p q : A -> bool) (l : list A) :
  (forall x, In x l -> p x = q x) -> count p l = count q l.
Proof.
  unfold count. induction l as [| x l IH]; intros H; [reflexivity |].
  simpl. rewrite (H x (or_introl eq_refl)).
  destruct (q x); simpl; rewrite IH; auto; intros y Hy; apply H; now right.
Qed.

Lemma count_three {A} (p q r : A -> bool) (l : list A) :
  (forall x, In x l ->
             (if p x then 1 else 0) + (if q x then 1 else 0) + (if r x then 1 else 0) = 1) ->
  length l = count p l + count q l + count r l.
Proof.
  unfold count. induction l as [| x l IH]; intros H; [reflexivity |].
  assert (Hx := H x (or_introl eq_refl)).
  assert (IH' := IH (fun y Hy => H y (or_intror Hy))).
  simpl. destruct (p x), (q x), (r x); simpl in *; lia.
Qed.

(** A duplicate-free list has as many members in a duplicate-free subset
    as the subset has elements. *)
Lemma count_members (s l : list string) :
  NoDup l -> NoDup s -> incl s l -> count (Set_has s) l = length s.
Proof.
  intros NDl NDs Hincl. unfold count. apply Permutation_length, NoDup_Permutation.
  - now apply NoDup_filter.
  - exact NDs.
  - intros x. rewrite filter_In, Set_has_true. split; [tauto |].
    intros H. split; [now apply Hincl | exact H].
Qed.

Lemma found_rows_ids (ids : list string) (rows : list Task) (r : Task) :
  In r rows -> Set_has (existing_ids ids rows) (id r) = Set_has ids (id r).
Proof.
  intros Hin. destruct (Set_has ids (id r)) eqn:E.
  - apply Set_has_true, existing_ids_In. apply Set_has_true in E.
    split; [exact E | now apply in_map].
  - apply Set_has_false. rewrite existing_ids_In. apply Set_has_false in E. tauto.
Qed.

Lemma completed_ids (t : Timestamp) (found : list string) (rows : list Task) :
  map s_id (completed_raw t found rows) = map id (filter (to_complete found) rows).
Proof. unfold completed_raw. rewrite map_map. reflexivity. Qed.

(** The accounting of a report.  When ids are unique in the store and in
    the request, [affected] is the number of entries tagged updated or
    deleted, [notFound] the number of failures, and every requested id is
    counted once: requested = affected + noop + notFound. *)
Theorem batch_accounting (dto : BatchProcessDto) (w : World) (r : BatchProcessResult) :
  NoDup (map id (tasks w)) ->
  NoDup (b_tasks dto) ->
  fst (batchProcess dto w) = Ok r ->
  r_requested r = length (r_results r) /\
  r_affected r = count is_changed (r_results r) /\
  r_notFound r = count is_failure (r_results r) /\
  r_requested r = r_affected r + count is_noop (r_results r) + r_notFound r.
Proof.
  intros NDrows NDids. rewrite batch_fst. unfold batch_answer.
  destruct dto as [ids action]. cbn [b_tasks b_action] in *.
  destruct ids as [| i0 ids'] eqn:Eids; [discriminate |]. rewrite <- Eids in *. cbv zeta.
  set (found := existing_ids ids (tasks w)).
  assert (Hfound : forall i, In i found -> In i ids).
  { intros i Hi. apply existing_ids_In in Hi. tauto. }
  assert (Hthree : forall items : list BatchItemResult,
             length items = count is_changed items + count is_noop items
                            + count is_failure items).
  { intros items. apply count_three. intros [i [| |] | i e] _; reflexivity. }
  destruct (String.eqb action COMPLETE).
  - intros H. apply found_ok in H. destruct H as [<- _]. cbn [r_requested r_affected r_notFound r_results].
    set (items := complete_items found _ ids).
    assert (Hlen : length items = length ids) by (unfold items, complete_items; apply length_map).
    assert (Haff : length (completed_raw (now w) found (tasks w)) = count is_changed items).
    { assert (Eupd := completed_ids (now w) found (tasks w)).
      unfold items. set (upd := map s_id (completed_raw (now w) found (tasks w))) in *.
      replace (length (completed_raw (now w) found (tasks w))) with (length upd)
        by (unfold upd; apply length_map).
      assert (Hupd : forall i, In i upd -> Set_has found i = true).
      { intros i Hi. rewrite Eupd in Hi. apply in_map_iff in Hi. destruct Hi as [t [<- Ht]].
        apply filter_In in Ht. destruct Ht as [_ Ht]. unfold to_complete in Ht.
        apply andb_prop in Ht. tauto. }
      unfold complete_items. rewrite count_map.
      rewrite <- (count_members (s := upd) (l := ids)).
      - apply count_ext. intros i _. rewrite Set_from_has.
        destruct (Set_has upd i) eqn:E.
        + apply Set_has_true in E. rewrite (Hupd i E). reflexivity.
        + destruct (negb (Set_has found i)); reflexivity.
      - exact NDids.
      - rewrite Eupd. now apply NoDup_ids_filter.
      - intros i Hi. apply Hfound, Set_has_true, Hupd, Hi. }
    assert (Hnf : length (filter (fun i => negb (Set_has found i)) ids) = count is_failure items).
    { unfold items, complete_items. rewrite count_map. apply count_ext. intros i _.
      destruct (negb (Set_has found i)); [reflexivity |].
      destruct (Set_has _ i); reflexivity. }
    rewrite Haff, Hnf, <- Hlen, (Hthree items). repeat split; lia.
  - destruct (String.eqb action DELETE); [| discriminate].
    intros H. apply found_ok in H. destruct H as [<- _]. cbn [r_requested r_affected r_notFound r_results].
    set (items := delete_items found ids).
    assert (Hlen : length items = length ids) by (unfold items, delete_items; apply length_map).
    assert (Haff : length (filter (fun t => Set_has found (id t)) (tasks w))
                   = count is_changed items).
    { unfold items, delete_items. rewrite count_map.
      rewrite <- (length_map id (filter _ (tasks w))).
      symmetry. rewrite <- (count_members (l := ids)).
      - apply count_ext. intros i Hi.
        destruct (Set_has (map id (filter (fun t => Set_has found (id t)) (tasks w))) i) eqn:E.
        + apply Set_has_true, in_map_iff in E. destruct E as [t [<- Ht]].
          apply filter_In in Ht. destruct Ht as [_ Ht]. rewrite Ht. reflexivity.
        + destruct (Set_has found i) eqn:F; [| reflexivity].
          apply Set_has_true in F. assert (F' := F). apply existing_ids_In in F.
          destruct F as [_ F]. apply in_map_iff in F. destruct F as [t [<- Ht]].
          apply Set_has_false in E. elim E. apply in_map, filter_In.
          split; [exact Ht | now apply Set_has_true].
      - exact NDids.
      - now apply NoDup_ids_filter.
      - intros i Hi. apply in_map_iff in Hi. destruct Hi as [t [<- Ht]].
        apply filter_In in Ht. destruct Ht as [_ Ht]. apply Hfound, Set_has_true, Ht. }
    assert (Hnf : length (filter (fun i => negb (Set_has found i)) ids) = count is_failure items).
    { unfold items, delete_items. rewrite count_map. apply count_ext. intros i _.
      destruct (negb (Set_has found i)); reflexivity. }
    rewrite Haff, Hnf, <- Hlen, (Hthree items). repeat split; lia.
Qed.

Lemma batch_accounting_witness :
  exists r,
    fst (batchProcess (mkBatchProcessDto ["A"; "B"; "C"] COMPLETE) world_AB) = Ok r /\
    r_requested r = r_affected r + count is_noop (r_results r) + r_notFound r.
Proof.
  eexists. split; [vm_compute; reflexivity |].
  apply (@batch_accounting (mkBatchProcessDto ["A"; "B"; "C"] COMPLETE) world_AB).
  - repeat constructor; simpl; intuition discriminate.
  - repeat constructor; simpl; intuition discriminate.
  - vm_compute. reflexivity.
Defined.

Lemma existing_ids_same_ids (ids : list string) (g : Task -> Task) (rows : list Task) :
  (forall r, id (g r) = id r) ->
  existing_ids ids (map g rows) = existing_ids ids rows.
Proof.
  intros Hg. unfold existing_ids. f_equal. rewrite !map_map. cbn [s_id project].
  induction rows as [| r rows IH]; [reflexivity |].
  simpl. rewrite Hg. destruct (Set_has ids (id r)); simpl; rewrite ?Hg, IH; reflexivity.
Qed.

Lemma complete_rows_ids (t : Timestamp) (found : list string) (rows : list Task) :
  map id (map (fun r => if to_complete found r then complete_row t r else r) rows) =
  map id rows.
Proof.
  rewrite map_map. apply map_ext. intros r. destruct (to_complete found r); reflexivity.
Qed.

(** After a complete batch every row whose id was requested is completed,
    the rows of other ids are as they were, and the table holds the same
    ids, each as often as before (nothing is said of where a row is found
    in a later scan). *)
Theorem batch_complete_completes (ids : list string) (w : World) :
  ids <> [] ->
  let after := tasks (snd (batchProcess (mkBatchProcessDto ids COMPLETE) w)) in
  (forall r, In r after -> In (id r) ids -> status r = COMPLETED) /\
  (forall r, ~ In (id r) ids -> (In r after <-> In r (tasks w))) /\
  Permutation (map id after) (map id (tasks w)).
Proof.
  intros Hne after. unfold after. rewrite batch_tasks. unfold batch_rows.
  cbn [b_tasks b_action]. destruct ids as [| i0 ids'] eqn:E; [congruence |].
  rewrite <- E. rewrite String.eqb_refl. cbv zeta.
  split; [| split; [| rewrite complete_rows_ids; apply Permutation_refl]].
  - intros r Hin Hid. apply in_map_iff in Hin. destruct Hin as [r0 [Hr Hin]].
    unfold to_complete in Hr. rewrite (found_rows_ids ids _ _ Hin) in Hr.
    destruct (Set_has ids (id r0)) eqn:Hhas.
    + cbn [andb] in Hr. destruct (String.eqb (status r0) COMPLETED) eqn:Hs.
      * cbn [negb] in Hr. subst r. now apply String.eqb_eq.
      * cbn [negb] in Hr. subst r. reflexivity.
    + cbn [andb] in Hr. subst r. apply Set_has_false in Hhas. tauto.
  - intros r Hout. rewrite in_map_iff. split.
    + intros [r0 [Hr Hin]]. unfold to_complete in Hr.
      rewrite (found_rows_ids ids _ _ Hin) in Hr.
      destruct (Set_has ids (id r0)) eqn:Hhas.
      * apply Set_has_true in Hhas.
        destruct (negb (String.eqb (status r0) COMPLETED)); cbn [andb] in Hr; subst r;
          [elim Hout; exact Hhas | exact Hin].
      * cbn [andb] in Hr. now subst r.
    + intros Hin. exists r. split; [| exact Hin].
      unfold to_complete. rewrite (found_rows_ids ids _ _ Hin).
      apply Set_has_false in Hout. now rewrite Hout.
Qed.

Lemma batch_complete_completes_witness :
  ["A"; "C"] <> [] /\
  forall r,
    In r (tasks (snd (batchProcess (mkBatchProcessDto ["A"; "C"] COMPLETE) world_AB))) ->
    In (id r) ["A"; "C"] -> status r = COMPLETED.
Proof.
  split; [discriminate |].
  apply (@batch_complete_completes ["A"; "C"] world_AB). discriminate.
Defined.

Lemma to_complete_done (t : Timestamp) (found found' : list string) (rows : list Task) :
  (forall r, In r rows -> Set_has found' (id r) = Set_has found (id r)) ->
  forall r',
    In r' (map (fun r => if to_complete found r then complete_row t r else r) rows) ->
    to_complete found' r' = false.
Proof.
  intros Hsame r' Hin. apply in_map_iff in Hin. destruct Hin as [r [<- Hr]].
  destruct (to_complete found r) eqn:E.
  - unfold to_complete. cbn [id status complete_row].
    rewrite String.eqb_refl. apply andb_false_r.
  - unfold to_complete in *. rewrite (Hsame r Hr). exact E.
Qed.

Lemma map_id_on {A} (f : A -> A) (l : list A) :
  (forall x, In x l -> f x = x) -> map f l = l.
Proof.
  intros H. rewrite <- (map_id l) at 2. apply map_ext_in. exact H.
Qed.

(** A complete batch that finds one of its ids is idempotent: run again
    on what it left, it changes no row, reports affected 0 with no entry
    tagged updated, and makes no call on the queue, so no task is enqueued
    a second time. *)
Theorem batch_complete_twice (ids : list string) (w : World) :
  some_exists ids (tasks w) ->
  let dto := mkBatchProcessDto ids COMPLETE in
  let w1 := snd (batchProcess dto w) in
  exists r2,
    fst (batchProcess dto w1) = Ok r2 /\
    r_affected r2 = 0 /\
    (forall i, ~ In (ItemSuccess i updated_) (r_results r2)) /\
    tasks (snd (batchProcess dto w1)) = tasks w1 /\
    calls (queue (snd (batchProcess dto w1))) = calls (queue w1).
Proof.
  intros Hex dto w1.
  assert (Hne : ids <> []).
  { destruct Hex as [i [Hi _]]. intros ->. exact Hi. }
  assert (T1 : tasks w1 =
               map (fun r => if to_complete (existing_ids ids (tasks w)) r
                             then complete_row (now w) r else r) (tasks w)).
  { unfold w1, dto. rewrite batch_tasks. unfold batch_rows. cbn [b_tasks b_action].
    destruct ids; [congruence |]. now rewrite String.eqb_refl. }
  assert (Hfound : existing_ids ids (tasks w1) = existing_ids ids (tasks w)).
  { rewrite T1. apply existing_ids_same_ids. intros r.
    destruct (to_complete _ r); reflexivity. }
  assert (Hnone : filter (to_complete (existing_ids ids (tasks w1))) (tasks w1) = []).
  { apply filter_none. rewrite Hfound, T1. apply to_complete_done. reflexivity. }
  assert (Hraw : completed_raw (now w1) (existing_ids ids (tasks w1)) (tasks w1) = []).
  { unfold completed_raw. now rewrite Hnone. }
  eexists. rewrite batch_fst, batch_tasks, batch_calls.
  unfold batch_answer, batch_rows, dto. cbn [b_tasks b_action].
  destruct ids as [| i0 ids'] eqn:E; [congruence |]. rewrite <- E in *.
  rewrite String.eqb_refl. cbv zeta. rewrite Hraw. cbn [map length].
  destruct (existing_ids ids (tasks w1)) as [| f0 fs0] eqn:EF.
  { symmetry in Hfound. apply existing_ids_nil in Hfound. contradiction. }
  rewrite <- EF in *.
  split; [reflexivity |]. cbn [r_affected r_results].
  split; [reflexivity |]. split; [| split; [| reflexivity]].
  - intros i Hin. unfold complete_items in Hin. apply in_map_iff in Hin.
    destruct Hin as [j [Hj _]].
    destruct (negb (Set_has (existing_ids ids (tasks w1)) j)); [discriminate |].
    replace (Set_has (Set_from []) j) with false in Hj by reflexivity. discriminate.
  - apply map_id_on. intros r Hr.
    assert (H := filter_In (to_complete (existing_ids ids (tasks w1))) r (tasks w1)).
    rewrite Hnone in H. destruct (to_complete _ r); [| reflexivity].
    elim (proj2 H). now split.
Qed.

Lemma batch_complete_twice_witness :
  exists r2,
    fst (batchProcess (mkBatchProcessDto ["A"; "B"] COMPLETE)
           (snd (batchProcess (mkBatchProcessDto ["A"; "B"] COMPLETE) world_AB))) = Ok r2 /\
    r_affected r2 = 0.
Proof.
  assert (Hex : some_exists ["A"; "B"] (tasks world_AB)).
  { exists "A". split; simpl; tauto. }
  destruct (@batch_complete_twice ["A"; "B"] world_AB Hex) as [r2 [H1 [H2 _]]].
  exists r2. split; [exact H1 | exact H2].
Defined.

(** What a complete batch hands to the queue: nothing when no row changed,
    and otherwise one [addBulk] call with one task-status-update request
    per changed row, as many as [affected], each for an id that the report
    tags updated. *)
Theorem batch_complete_enqueues_changed (ids : list string) (w : World)
        (r : BatchProcessResult) :
  fst (batchProcess (mkBatchProcessDto ids COMPLETE) w) = Ok r ->
  let after := snd (batchProcess (mkBatchProcessDto ids COMPLETE) w) in
  (r_affected r = 0 -> calls (queue after) = calls (queue w)) /\
  (0 < r_affected r ->
   exists changed,
     calls (queue after) =
     calls (queue w) ++ [CallAddBulk (map status_update_request changed)
                                     (queue_down (queue w))] /\
     length changed = r_affected r /\
     forall i, In i changed -> In (ItemSuccess i updated_) (r_results r)).
Proof.
  intros Hok after. unfold after. rewrite batch_calls. rewrite batch_fst in Hok.
  rewrite Hok. cbn [b_action b_tasks]. rewrite String.eqb_refl.
  unfold batch_answer in Hok. cbn [b_tasks b_action] in Hok.
  destruct ids as [| i0 ids'] eqn:E; [discriminate |]. rewrite <- E in *.
  rewrite String.eqb_refl in Hok. cbv zeta in Hok.
  apply found_ok in Hok. destruct Hok as [<- _].
  cbn [r_affected r_results].
  set (found := existing_ids ids (tasks w)).
  set (raw := completed_raw (now w) found (tasks w)).
  rewrite <- (length_map s_id raw).
  destruct (map s_id raw) as [| c cs] eqn:Eraw.
  - split; [reflexivity | cbn [length]; lia].
  - split; [cbn [length]; discriminate |]. intros _.
    exists (c :: cs). split; [reflexivity |]. split; [reflexivity |].
    intros i Hi. unfold complete_items. apply in_map_iff. exists i.
    assert (Hi' := Hi). rewrite <- Eraw in Hi'. unfold raw in Hi'.
    rewrite completed_ids in Hi'. apply in_map_iff in Hi'. destruct Hi' as [t [<- Ht]].
    apply filter_In in Ht. destruct Ht as [Hin Ht]. unfold to_complete in Ht.
    apply andb_prop in Ht. destruct Ht as [Hf _].
    split.
    + rewrite Hf. cbn [negb]. rewrite Set_from_has.
      replace (Set_has (c :: cs) (id t)) with true; [reflexivity |].
      symmetry. now apply Set_has_true.
    + apply Set_has_true in Hf. apply existing_ids_In in Hf. tauto.
Qed.

Lemma batch_complete_enqueues_changed_witness :
  exists changed,
    calls (queue (snd (batchProcess (mkBatchProcessDto ["A"; "B"; "C"] COMPLETE) world_AB))) =
    [CallAddBulk (map status_update_request changed) false] /\
    length changed = 1.
Proof.
  destruct (@batch_complete_enqueues_changed ["A"; "B"; "C"] world_AB
              (mkBatchProcessResult COMPLETE 3 1 1
                 [ItemSuccess "A" updated_; ItemSuccess "B" noop_; ItemFailure "C" "not_found"])
              eq_refl) as [_ H].
  destruct (H ltac:(cbn; lia)) as [changed [H1 [H2 _]]].
  exists changed. split; [exact H1 | exact H2].
Defined.

(** After a delete batch the store holds exactly the rows whose id was not
    requested, [affected] is the number of rows that went away, and nothing
    is handed to the queue; each requested id is then unknown to a
    lookup. *)
Theorem batch_delete_removes (ids : list string) (w : World) (r : BatchProcessResult) :
  fst (batchProcess (mkBatchProcessDto ids DELETE) w) = Ok r ->
  let after := snd (batchProcess (mkBatchProcessDto ids DELETE) w) in
  (forall t, In t (tasks after) <-> In t (tasks w) /\ ~ In (id t) ids) /\
  length (tasks w) = length (tasks after) + r_affected r /\
  (forall i, In i ids ->
             fst (findOneOrFail i after) = Throw (NotFoundException "Task not found")) /\
  queue after = queue w.
Proof.
  intros Hok after.
  assert (Hne : ids <> []).
  { intros ->. rewrite batch_fst in Hok. discriminate. }
  assert (T : tasks after =
              filter (fun t => negb (Set_has (existing_ids ids (tasks w)) (id t))) (tasks w)).
  { unfold after. rewrite batch_tasks. unfold batch_rows. cbn [b_tasks b_action].
    destruct ids; [congruence |]. reflexivity. }
  assert (Hin : forall t, In t (tasks after) <-> In t (tasks w) /\ ~ In (id t) ids).
  { intros t. rewrite T, filter_In. split.
    - intros [H1 H2]. split; [exact H1 |]. rewrite (found_rows_ids ids _ _ H1) in H2.
      apply negb_true_iff, Set_has_false in H2. exact H2.
    - intros [H1 H2]. split; [exact H1 |]. rewrite (found_rows_ids ids _ _ H1).
      apply negb_true_iff, Set_has_false. exact H2. }
  split; [exact Hin |]. split; [| split].
  - rewrite batch_fst in Hok. unfold batch_answer in Hok. cbn [b_tasks b_action] in Hok.
    destruct ids as [| i0 ids'] eqn:E; [congruence |]. rewrite <- E in *.
    replace (String.eqb DELETE COMPLETE) with false in Hok by reflexivity.
    rewrite String.eqb_refl in Hok. cbv zeta in Hok.
    apply found_ok in Hok. destruct Hok as [<- _].
    cbn [r_affected]. rewrite T.
    pose proof (filter_length (fun t => Set_has (existing_ids ids (tasks w)) (id t))
                              (tasks w)) as FL.
    cbv beta in FL. lia.
  - intros i Hi. rewrite findOneOrFail_fst.
    destruct (find (has_id i) (tasks after)) as [t |] eqn:F; [| reflexivity].
    destruct (find_has_id _ _ F) as [Ht Hid]. apply Hin in Ht. rewrite Hid in Ht. tauto.
  - unfold after. destruct w as [ts ss q0 ls ms nw uu sr cfg].
    destruct ids as [| i0 ids']; [congruence |].
    run. cbn [length Nat.eqb b_tasks b_action].
    replace (String.eqb DELETE COMPLETE) with false by reflexivity.
    rewrite String.eqb_refl. fields.
    destruct (Set_from (map s_id (map project (filter _ _)))); reflexivity.
Qed.

Lemma batch_delete_removes_witness :
  tasks (snd (batchProcess (mkBatchProcessDto ["A"; "C"] DELETE) world_AB)) <> [] /\
  fst (findOneOrFail "A" (snd (batchProcess (mkBatchProcessDto ["A"; "C"] DELETE) world_AB))) =
  Throw (NotFoundException "Task not found").
Proof.
  split; [vm_compute; discriminate |].
  apply (@batch_delete_removes ["A"; "C"] world_AB
           (mkBatchProcessResult DELETE 2 1 1
              [ItemSuccess "A" deleted_; ItemFailure "C" "not_found"]) eq_refl).
  now left.
Defined.

(* ----------------------------------------------------------------- *)
(** *** Statistics *)

Lemma getStats_run (w : World) :
  getStats w =
  (Ok (mkTaskStatsDto (length (tasks w))
                      (count_rows (has_status COMPLETED) (tasks w))
                      (count_rows (has_status IN_PROGRESS) (tasks w))
                      (count_rows (has_status PENDING) (tasks w))
                      (count_rows (has_priority HIGH) (tasks w))), w).
Proof.
  unfold getStats, bind, get_world, ret, count_rows. f_equal. f_equal. f_equal.
  induction (tasks w) as [| r rows IH]; simpl; congruence.
Qed.

Lemma count_rows_le (p : Task -> bool) (rows : list Task) :
  count_rows p rows <= length rows.
Proof. apply filter_length_le. Qed.

Lemma status_classes (rows : list Task) :
  count_rows (has_status COMPLETED) rows + count_rows (has_status IN_PROGRESS) rows
  + count_rows (has_status PENDING) rows
  + count_rows (fun r => negb (has_status COMPLETED r || has_status IN_PROGRESS r
                               || has_status PENDING r)) rows
  = length rows.
Proof.
  unfold count_rows, has_status. induction rows as [| r rows IH]; [reflexivity |].
  cbn [filter].
  destruct (String.eqb_spec (status r) COMPLETED) as [E | E].
  - rewrite E. cbn. lia.
  - destruct (String.eqb_spec (status r) IN_PROGRESS) as [E2 | E2].
    + rewrite E2. cbn. lia.
    + destruct (String.eqb_spec (status r) PENDING) as [E3 | E3]; cbn; lia.
Qed.

(** [getStats] reads only: it answers the number of rows as total, counts
    no row twice (completed + inProgress + pending <= total, with equality
    when every status is one of these three) and never reports more
    high-priority tasks than tasks. *)
Theorem stats_are_consistent (w : World) :
  exists st,
    getStats w = (Ok st, w) /\
    st_total st = length (tasks w) /\
    st_completed st + st_inProgress st + st_pending st <= st_total st /\
    st_highPriority st <= st_total st /\
    (Forall (fun r => counted_status (status r)) (tasks w) ->
     st_completed st + st_inProgress st + st_pending st = st_total st).
Proof.
  eexists. split; [apply getStats_run |].
  cbn [st_total st_completed st_inProgress st_pending st_highPriority].
  assert (H := status_classes (tasks w)).
  split; [reflexivity |]. split; [lia |]. split; [apply count_rows_le |].
  intros Hall.
  replace (count_rows (fun r => negb _) (tasks w)) with 0 in H; [lia |].
  symmetry. unfold count_rows. rewrite filter_none; [reflexivity |].
  intros r Hr. rewrite Forall_forall in Hall. specialize (Hall r Hr).
  unfold has_status. destruct Hall as [-> | [-> | ->]]; reflexivity.
Qed.

Lemma completed_after (t : Timestamp) (found : list string) (rows : list Task) :
  count_rows (has_status COMPLETED)
             (map (fun r => if to_complete found r then complete_row t r else r) rows) =
  count_rows (has_status COMPLETED) rows + length (filter (to_complete found) rows).
Proof.
  unfold count_rows. induction rows as [| r rows IH]; [reflexivity |].
  cbn [map filter]. destruct (to_complete found r) eqn:E.
  - replace (has_status COMPLETED (complete_row t r)) with true by reflexivity.
    unfold to_complete in E. apply andb_prop in E. destruct E as [_ E].
    apply negb_true_iff in E. unfold has_status in *. rewrite E. cbn [length]. lia.
  - destruct (has_status COMPLETED r); cbn [length]; lia.
Qed.

Lemma count_rows_same (p : Task -> bool) (g : Task -> Task) (rows : list Task) :
  (forall r, p (g r) = p r) -> count_rows p (map g rows) = count_rows p rows.
Proof.
  intros H. unfold count_rows. induction rows as [| r rows IH]; [reflexivity |].
  cbn [map filter]. rewrite H. destruct (p r); cbn [length]; now rewrite IH.
Qed.

(** The statistics follow a complete batch: [completed] grows by exactly
    the [affected] of the report, while [total] and [highPriority] stay. *)
Theorem stats_after_complete (ids : list string) (w : World) (r : BatchProcessResult) :
  fst (batchProcess (mkBatchProcessDto ids COMPLETE) w) = Ok r ->
  let after := snd (batchProcess (mkBatchProcessDto ids COMPLETE) w) in
  st_completed (stats_of after) = st_completed (stats_of w) + r_affected r /\
  st_total (stats_of after) = st_total (stats_of w) /\
  st_highPriority (stats_of after) = st_highPriority (stats_of w).
Proof.
  intros Hok after. unfold stats_of. rewrite !getStats_run. cbn [fst st_completed st_total
    st_highPriority].
  rewrite batch_fst in Hok. unfold batch_answer in Hok. cbn [b_tasks b_action] in Hok.
  unfold after. rewrite batch_tasks. unfold batch_rows. cbn [b_tasks b_action].
  destruct ids as [| i0 ids'] eqn:E; [discriminate |]. rewrite <- E in *.
  rewrite String.eqb_refl in *. cbv zeta in *.
  apply found_ok in Hok. destruct Hok as [<- _]. cbn [r_affected].
  split; [| split].
  - rewrite completed_after. unfold completed_raw. now rewrite length_map.
  - apply length_map.
  - apply count_rows_same. intros t. destruct (to_complete _ t); reflexivity.
Qed.

Lemma stats_after_complete_witness :
  st_completed (stats_of (snd (batchProcess (mkBatchProcessDto ["A"; "B"; "C"] COMPLETE)
                                            world_AB))) = 2.
Proof.
  apply (@stats_after_complete ["A"; "B"; "C"] world_AB
           (mkBatchProcessResult COMPLETE 3 1 1
              [ItemSuccess "A" updated_; ItemSuccess "B" noop_; ItemFailure "C" "not_found"])
           eq_refl).
Defined.

(* ----------------------------------------------------------------- *)
(** *** Listings *)

Lemma insert_desc_perm (r : Task) (l : list Task) :
  Permutation (insert_desc r l) (r :: l).
Proof.
  induction l as [| x l IH]; cbn [insert_desc]; [reflexivity |].
  destruct (createdAt x <=? createdAt r)%Z; [reflexivity |].
  rewrite IH. apply perm_swap.
Qed.

Lemma order_perm (l : list Task) : Permutation (order_createdAt_desc l) l.
Proof.
  unfold order_createdAt_desc. induction l as [| x l IH]; cbn [fold_right]; [reflexivity |].
  rewrite insert_desc_perm. now constructor.
Qed.

Lemma newest_first_tail (bound : Z) (l : list Task) :
  newest_first l ->
  match l with
  | [] => True
  | x :: _ => (createdAt x <= bound)%Z
  end ->
  Forall (fun older => (createdAt older <= bound)%Z) l.
Proof.
  destruct l as [| x l]; [constructor |]. intros [Hx _] Hb. constructor; [exact Hb |].
  eapply Forall_impl; [| exact Hx]. intros a Ha. cbv beta in Ha. lia.
Qed.

Lemma insert_desc_sorted (r : Task) (l : list Task) :
  newest_first l -> newest_first (insert_desc r l).
Proof.
  induction l as [| x l IH]; intros Hs; cbn [insert_desc].
  - split; constructor.
  - destruct (createdAt x <=? createdAt r)%Z eqn:E.
    + apply Z.leb_le in E. split; [| exact Hs].
      apply newest_first_tail; assumption.
    + apply Z.leb_gt in E. destruct Hs as [Hx Hl]. split; [| now apply IH].
      rewrite (Forall_forall (fun older => (createdAt older <= createdAt x)%Z)).
      intros a Ha. apply (Permutation_in _ (insert_desc_perm r l)) in Ha.
      destruct Ha as [<- | Ha]; [lia |].
      rewrite Forall_forall in Hx. now apply Hx.
Qed.

Lemma order_sorted (l : list Task) : newest_first (order_createdAt_desc l).
Proof.
  unfold order_createdAt_desc. induction l as [| x l IH]; cbn [fold_right]; [exact I |].
  now apply insert_desc_sorted.
Qed.

Lemma Forall_sub {A} (P : A -> Prop) (l l' : list A) :
  (forall x, In x l' -> In x l) -> Forall P l -> Forall P l'.
Proof.
  intros Hsub H. rewrite Forall_forall in *. auto.
Qed.

Lemma newest_first_skipn (n : nat) (l : list Task) :
  newest_first l -> newest_first (skipn n l).
Proof.
  revert l. induction n as [| n IH]; intros l Hs; [exact Hs |].
  destruct l as [| x l]; [exact I |]. apply IH. apply Hs.
Qed.

Lemma newest_first_firstn (n : nat) (l : list Task) :
  newest_first l -> newest_first (firstn n l).
Proof.
  revert l. induction n as [| n IH]; intros l Hs; [exact I |].
  destruct l as [| x l]; [exact I |]. destruct Hs as [Hx Hl].
  cbn [firstn newest_first]. split; [| now apply IH].
  apply (@Forall_sub _ _ l); [| exact Hx]. intros a Ha.
  rewrite <- (firstn_skipn n l). apply in_or_app. now left.
Qed.

Lemma with_default_pos (x : option positive) (d : positive) : 0 < with_default x d.
Proof. unfold with_default. apply Pos2Nat.is_pos. Qed.

Lemma findAll_run (query : GetTasksQueryDto) (w : World) :
  let page := with_default (g_page query) 1 in
  let limit := with_default (g_limit query) 10 in
  let found := filter (matches (where_of query)) (tasks w) in
  findAll query w =
  (Ok (mkPaginatedTasks
         (firstn limit (skipn ((page - 1) * limit) (order_createdAt_desc found)))
         (page_meta (length found) page limit)), w).
Proof. reflexivity. Qed.

Lemma matches_spec (wh : FindOptionsWhere) (r : Task) :
  matches wh r = true <->
  (forall s, where_status wh = Some s -> status r = s) /\
  (forall p, where_priority wh = Some p -> priority r = p).
Proof.
  unfold matches. rewrite andb_true_iff.
  destruct (where_status wh) as [s |], (where_priority wh) as [p |];
    rewrite ?String.eqb_eq; split.
  - intros [H1 H2]. split; intros x E; injection E as <-; assumption.
  - intros [H1 H2]. split; auto.
  - intros [H1 _]. split; intros x E; [injection E as <-; assumption | discriminate].
  - intros [H1 _]. split; auto.
  - intros [_ H2]. split; intros x E; [discriminate | injection E as <-; assumption].
  - intros [_ H2]. split; auto.
  - intros _. split; intros x E; discriminate.
  - intros _. split; reflexivity.
Qed.

Lemma if_truthy_some (x : option string) (s : string) :
  x = Some s -> s <> "" -> if_truthy x = Some s.
Proof.
  intros -> Hs. unfold if_truthy. apply String.eqb_neq in Hs. now rewrite Hs.
Qed.

(** A page of [findAll] holds rows of the store only, each with the status
    and the priority that the query names (an empty string names none),
    from the most recently created to the oldest, at most [limit] of them
    (10 when the query gives none); [total] counts every row that passes
    the filters, not only those of the page, and the store is not
    changed. *)
Theorem listing_page_content (query : GetTasksQueryDto) (w : World) :
  exists res,
    findAll query w = (Ok res, w) /\
    (forall r, In r (p_data res) ->
               In r (tasks w) /\
               (forall s, g_status query = Some s -> s <> "" -> status r = s) /\
               (forall p, g_priority query = Some p -> p <> "" -> priority r = p)) /\
    newest_first (p_data res) /\
    length (p_data res) <= with_default (g_limit query) 10 /\
    m_total (p_meta res) = length (filter (matches (where_of query)) (tasks w)) /\
    length (p_data res) <= m_total (p_meta res).
Proof.
  eexists. split; [apply findAll_run |]. cbn [p_data p_meta m_total page_meta].
  set (found := filter (matches (where_of query)) (tasks w)).
  set (skip := (with_default (g_page query) 1 - 1) * with_default (g_limit query) 10).
  assert (Hsub : forall r, In r (firstn (with_default (g_limit query) 10)
                                        (skipn skip (order_createdAt_desc found))) ->
                           In r found).
  { intros r Hr. apply (Permutation_in _ (order_perm found)).
    rewrite <- (firstn_skipn skip (order_createdAt_desc found)). apply in_or_app. right.
    rewrite <- (firstn_skipn (with_default (g_limit query) 10) (skipn skip _)).
    apply in_or_app. now left. }
  split; [| split; [| split; [| split]]].
  - intros r Hr. apply Hsub in Hr. unfold found in Hr. apply filter_In in Hr.
    destruct Hr as [Hin Hm]. split; [exact Hin |].
    apply matches_spec in Hm. destruct Hm as [H1 H2]. split.
    + intros s E Hs. apply H1. cbn [where_of where_status]. now apply if_truthy_some.
    + intros p E Hp. apply H2. cbn [where_of where_priority]. now apply if_truthy_some.
  - apply newest_first_firstn, newest_first_skipn, order_sorted.
  - apply firstn_le_length.
  - reflexivity.
  - rewrite length_firstn, length_skipn, (Permutation_length (order_perm found)). lia.
Qed.

Lemma ceil_div_next (p t l : nat) : 0 < l -> (p < ceil_div t l <-> p * l < t).
Proof.
  intros Hl. unfold ceil_div. split.
  - intros H. destruct (Nat.lt_ge_cases (p * l) t) as [Hlt | Hge]; [exact Hlt |].
    assert (Hdiv : (t + l - 1) / l < S p).
    { apply Nat.Div0.div_lt_upper_bound. rewrite Nat.mul_succ_r, (Nat.mul_comm l p). lia. }
    lia.
  - intros H. apply (Nat.div_le_lower_bound (t + l - 1) l (S p)); [lia |].
    rewrite Nat.mul_succ_r, (Nat.mul_comm l p). lia.
Qed.

(** The meta block of a page.  [hasNextPage] holds exactly when rows that
    pass the filters remain after this page, [hasPrevPage] exactly when
    the page is not the first; [pageCount] pages are enough for all
    matching rows and one fewer is not; the page holds
    min (limit, total - (page - 1) limit) rows. *)
Theorem listing_meta (query : GetTasksQueryDto) (w : World) :
  let page := with_default (g_page query) 1 in
  let limit := with_default (g_limit query) 10 in
  exists res,
    findAll query w = (Ok res, w) /\
    m_page (p_meta res) = page /\ m_limit (p_meta res) = limit /\
    (m_hasNextPage (p_meta res) = true <-> page * limit < m_total (p_meta res)) /\
    (m_hasPrevPage (p_meta res) = true <-> 1 < page) /\
    m_total (p_meta res) <= m_pageCount (p_meta res) * limit /\
    (0 < m_total (p_meta res) ->
     (m_pageCount (p_meta res) - 1) * limit < m_total (p_meta res)) /\
    length (p_data res) = Nat.min limit (m_total (p_meta res) - (page - 1) * limit).
Proof.
  intros page limit. eexists. split; [apply findAll_run |].
  cbn [p_data p_meta m_total m_page m_limit m_pageCount m_hasNextPage m_hasPrevPage page_meta].
  fold page. fold limit.
  set (total := length (filter (matches (where_of query)) (tasks w))).
  assert (Hl : 0 < limit) by apply with_default_pos.
  split; [reflexivity |]. split; [reflexivity |].
  split; [rewrite Nat.ltb_lt; now apply ceil_div_next |].
  split; [apply Nat.ltb_lt |].
  split; [| split].
  - destruct (Nat.le_gt_cases total (ceil_div total limit * limit)) as [H | H]; [exact H |].
    apply (ceil_div_next (ceil_div total limit) total Hl) in H. lia.
  - intros Hpos.
    assert (Hc : 0 < ceil_div total limit) by (apply (ceil_div_next 0 total Hl); lia).
    apply (ceil_div_next (ceil_div total limit - 1) total Hl). lia.
  - rewrite length_firstn, length_skipn, (Permutation_length (order_perm _)). reflexivity.
Qed.

(** Rows created at pairwise distinct instants have one arrangement from
    the most recently created to the oldest. *)
Lemma newest_first_unique (l1 l2 : list Task) :
  NoDup (map createdAt l1) -> Permutation l1 l2 ->
  newest_first l1 -> newest_first l2 -> l1 = l2.
Proof.
  revert l2. induction l1 as [| x l1 IH]; intros l2 ND P S1 S2.
  - apply Permutation_nil in P. now subst.
  - destruct l2 as [| y l2].
    { apply Permutation_sym, Permutation_nil in P. discriminate. }
    cbn [map] in ND. inversion ND as [| ? ? Hfresh ND']; subst.
    destruct S1 as [Hx S1]. destruct S2 as [Hy S2].
    assert (E : x = y).
    { assert (Hxin : In x (y :: l2)) by (apply (Permutation_in _ P); now left).
      assert (Hyin : In y (x :: l1))
        by (apply (Permutation_in _ (Permutation_sym P)); now left).
      destruct Hxin as [-> | Hxin]; [reflexivity |].
      destruct Hyin as [-> | Hyin]; [reflexivity |].
      rewrite Forall_forall in Hx, Hy.
      assert (Hsame : createdAt y = createdAt x).
      { apply Z.le_antisymm; [now apply Hx | now apply Hy]. }
      elim Hfresh. rewrite <- Hsame. now apply in_map. }
    subst y. f_equal. apply IH; auto. now apply Permutation_cons_inv in P.
Qed.

(** When the rows that pass the filters of a query were created at
    pairwise distinct instants, the pages 1 .. pageCount put end to end
    are those rows, each exactly once, from the most recently created to
    the oldest (the one arrangement in that order), and every later page
    is empty. *)
Theorem listing_pages_cover (query : GetTasksQueryDto) (w : World) :
  let limit := with_default (g_limit query) 10 in
  let found := filter (matches (where_of query)) (tasks w) in
  let all := flat_map (fun k => page_data query k w)
                      (seq 0 (ceil_div (length found) limit)) in
  NoDup (map createdAt found) ->
  Permutation all found /\ newest_first all /\
  (forall l, Permutation l found -> newest_first l -> l = all) /\
  forall k, ceil_div (length found) limit <= k -> page_data query k w = [].
Proof.
  intros limit found all Hdistinct.
  assert (Hl : 0 < limit) by apply with_default_pos.
  assert (Hpage : forall k, page_data query k w =
                            firstn limit (skipn (k * limit) (order_createdAt_desc found))).
  { intros k. unfold page_data. rewrite findAll_run. unfold where_of.
    cbn [fst p_data g_page g_limit g_status g_priority].
    change (with_default (Some (Pos.of_succ_nat k)) 1) with (Pos.to_nat (Pos.of_succ_nat k)).
    rewrite SuccNat2Pos.id_succ. cbn [Nat.sub]. rewrite Nat.sub_0_r. reflexivity. }
  assert (Hcover : length found <= ceil_div (length found) limit * limit).
  { destruct (Nat.le_gt_cases (length found) (ceil_div (length found) limit * limit))
      as [H | H]; [exact H |].
    apply (ceil_div_next (ceil_div (length found) limit) (length found) Hl) in H. lia. }
  assert (Hall : all = order_createdAt_desc found).
  { unfold all. rewrite (flat_map_ext _ _ Hpage), pages_concat.
    apply firstn_all2. now rewrite (Permutation_length (order_perm found)). }
  rewrite Hall. split; [apply order_perm |]. split; [apply order_sorted |].
  split.
  - intros l Hperm Hsorted. apply newest_first_unique; auto.
    + apply (Permutation_NoDup (l := map createdAt found)); [| exact Hdistinct].
      apply Permutation_map, Permutation_sym, Hperm.
    + rewrite Hperm. apply Permutation_sym, order_perm.
    + apply order_sorted.
  - intros k Hk. rewrite Hpage, skipn_all2; [apply firstn_nil |].
    rewrite (Permutation_length (order_perm found)).
    apply (Nat.le_trans _ _ _ Hcover). now apply Nat.mul_le_mono_r.
Qed.

Lemma listing_pages_cover_witness :
  let query := mkGetTasksQueryDto None None None (Some 1%positive) in
  NoDup (map createdAt (filter (matches (where_of query)) (tasks world_AB))) /\
  flat_map (fun k => page_data query k world_AB) (seq 0 2) = [taskB; taskA].
Proof.
  cbv zeta.
  assert (H : NoDup (map createdAt
                       (filter (matches (where_of (mkGetTasksQueryDto None None None
                                                      (Some 1%positive))))
                               (tasks world_AB)))).
  { repeat constructor; simpl; intuition discriminate. }
  split; [exact H |].
  destruct (@listing_pages_cover (mkGetTasksQueryDto None None None (Some 1%positive))
              world_AB H) as [_ [_ [Huniq _]]].
  symmetry. apply Huniq.
  - apply perm_swap.
  - cbn [newest_first]. split; [| split; [constructor | exact I]].
    constructor; [cbn; lia | constructor].
Defined.

(** [findByStatus] is the listing of [findAll] for a query that names the
    status and no priority, with 20 rows a page when no limit is given;
    the status must not be the empty string, which [findAll] would take
    as no filter. *)
Theorem findByStatus_is_findAll (s : TaskStatus) (page limit : option positive) (w : World) :
  s <> "" ->
  findByStatus s page limit w =
  findAll (mkGetTasksQueryDto (Some s) None page
             (Some (match limit with Some l => l | None => 20%positive end))) w.
Proof.
  intros Hs. unfold findByStatus, findAll. cbn [g_status g_priority g_page g_limit].
  assert (E : if_truthy (Some s) = Some s) by (now apply if_truthy_some).
  rewrite E. cbn [if_truthy]. unfold with_default. destruct limit; reflexivity.
Qed.

Lemma findByStatus_is_findAll_witness :
  findByStatus PENDING None None world_AB =
  findAll (mkGetTasksQueryDto (Some PENDING) None None (Some 20%positive)) world_AB.
Proof.
  apply (@findByStatus_is_findAll PENDING None None world_AB). discriminate.
Defined.

(* ----------------------------------------------------------------- *)
(** *** The scan and the jobs it leaves on the queue *)


Lemma same_store_refl (w : World) : same_store w w.
Proof. repeat split. Qed.




Section ScanJobs.

Variable c : Timestamp.
Variable B : nat.
Hypothesis HB : 0 < B.


End ScanJobs.











(* ----------------------------------------------------------------- *)
(** *** The deduplication of the batch DTO *)

Lemma fold_Set_add_distinct (l acc : list string) :
  NoDup (acc ++ l) -> fold_left Set_add l acc = acc ++ l.
Proof.
  revert acc. induction l as [| x l IH]; intros acc ND; cbn [fold_left].
  - now rewrite app_nil_r.
  - assert (Hx : Set_has acc x = false).
    { apply Set_has_false. intros Hin. apply NoDup_remove_2 in ND.
      apply ND. apply in_or_app. now left. }
    unfold Set_add at 2. rewrite Hx. rewrite IH.
    + now rewrite <- app_assoc.
    + now rewrite <- app_assoc.
Qed.

(** The transform of [BatchProcessDto.tasks] keeps every id of the input
    and no other, each once; it leaves a list without duplicates as it
    is, is idempotent, and never lengthens the list. *)
Theorem dedupe_tasks_keeps_each_id_once (value : list string) :
  NoDup (dedupe_tasks value) /\
  (forall i, In i (dedupe_tasks value) <-> In i value) /\
  (NoDup value -> dedupe_tasks value = value) /\
  dedupe_tasks (dedupe_tasks value) = dedupe_tasks value /\
  length (dedupe_tasks value) <= length value.
Proof.
  unfold dedupe_tasks.
  assert (Hfix : forall l, NoDup l -> Set_from l = l).
  { intros l ND. unfold Set_from. now rewrite fold_Set_add_distinct. }
  split; [apply Set_from_NoDup |]. split; [apply Set_from_In |].
  split; [apply Hfix |]. split; [apply Hfix, Set_from_NoDup |].
  apply NoDup_incl_length; [apply Set_from_NoDup |].
  intros i Hi. now apply Set_from_In.
Qed.

(* ----------------------------------------------------------------- *)
(** *** Ids stay unique *)

Lemma patch_rows_ids (i : string) (dto : UpdateTaskDto) (t : Timestamp) (rows : list Task) :
  map id (patch_rows i dto t rows) = map id rows.
Proof.
  unfold patch_rows. rewrite map_map. apply map_ext. intros r.
  destruct (has_id i r); reflexivity.
Qed.

Lemma save_rows_ids (entity : Task) (t : Timestamp) (rows : list Task) :
  map id (save_rows entity t rows) = map id rows.
Proof.
  unfold save_rows. rewrite map_map. apply map_ext. intros r.
  destruct (has_id (id entity) r) eqn:E; [| reflexivity].
  cbn [id touch]. symmetry. now apply String.eqb_eq.
Qed.

(** No operation of the service gives two rows the same id: if the ids of
    the store are pairwise distinct they are so after [update],
    [updateStatus], [remove] and [batchProcess], whatever the outcome, and
    after [create] when the id the database hands out is new. *)
Theorem ids_stay_unique (w : World) :
  NoDup (map id (tasks w)) ->
  (forall i dto, NoDup (map id (tasks (snd (update i dto w))))) /\
  (forall i s, NoDup (map id (tasks (snd (updateStatus i s w))))) /\
  (forall i, NoDup (map id (tasks (snd (remove i w))))) /\
  (forall dto, NoDup (map id (tasks (snd (batchProcess dto w))))) /\
  (forall dto, ~ In (uuid w (serial w)) (map id (tasks w)) ->
               NoDup (map id (tasks (snd (create dto w))))).
Proof.
  intros ND. split; [| split; [| split; [| split]]].
  - intros i dto. rewrite update_tasks.
    destruct (find (has_id i) (tasks w)); [now rewrite patch_rows_ids | exact ND].
  - intros i s. rewrite updateStatus_run.
    destruct (find (has_id i) (tasks w)) as [before |].
    + destruct (String.eqb (status before) s).
      * destruct w; exact ND.
      * replace (tasks (snd _)) with (save_rows (set_status s before) (now w) (tasks w))
          by (destruct w; reflexivity).
        now rewrite save_rows_ids.
    + destruct w; exact ND.
  - intros i. rewrite remove_tasks. now apply NoDup_ids_filter.
  - intros dto. rewrite batch_tasks. unfold batch_rows.
    destruct (b_tasks dto); [exact ND |]. cbv zeta.
    destruct (String.eqb (b_action dto) COMPLETE); [now rewrite complete_rows_ids |].
    destruct (String.eqb (b_action dto) DELETE); [now apply NoDup_ids_filter | exact ND].
  - intros dto Hfresh. rewrite create_tasks, map_app. cbn [map].
    apply NoDup_app; [exact ND | repeat constructor; simpl; tauto |].
    intros x Hx [<- | []]. apply Hfresh. exact Hx.
Qed.

Lemma ids_stay_unique_witness :
  NoDup (map id (tasks (snd (batchProcess (mkBatchProcessDto ["B"] DELETE) world_AB)))).
Proof.
  apply (@ids_stay_unique world_AB).
  repeat constructor; simpl; intuition discriminate.
Defined.
